(** * Spyglass artifact resolution (prow/spyglass/artifacts.go)

    A shallow embedding of [splitSrc], [prowToGCS], [ListArtifacts] and
    [FetchArtifacts], followed by the properties of the artifact
    resolution and fallback policy.

    Go strings are byte sequences, as are the strings of the Standard
    Library.  A Go pair [(value, error)] is a pair with an [option error]
    where the code reads the value also when the error is set, and a sum
    where the value is read only when the error is nil.  The calls to
    logrus and to the clock do not influence any returned value and are
    left out; every call to the job agent, to the storage fetcher, to an
    artifact handle and to the pod-log fetcher is recorded in a trace. *)

From Stdlib Require Import String Ascii List ZArith Bool Arith Lia.
Import ListNotations.
Local Open Scope string_scope.
Local Open Scope list_scope.

(** ** The functions of Go's [strings] package that the file calls *)

Module Strings.

(** The only separator the file ever passes. *)
Definition sep : ascii := "/"%char.

(** [strings.Cut(s, "/")]: the text before and after the first separator. *)
Fixpoint Cut (s : string) : option (string * string) :=
  match s with
  | EmptyString => None
  | String c rest =>
      if Ascii.eqb c sep then Some (EmptyString, rest)
      else match Cut rest with
           | Some (before, after) => Some (String c before, after)
           | None => None
           end
  end.

(** [strings.SplitN(s, "/", 2)]: at most two pieces, cut at the first
    separator. *)
Definition SplitN2 (s : string) : list string :=
  match Cut s with
  | Some (before, after) => [before; after]
  | None => [s]
  end.

(** [strings.Split(s, "/")]: all the pieces between separators; one more
    piece than there are separators. *)
Fixpoint Split (s : string) : list string :=
  match s with
  | EmptyString => [EmptyString]
  | String c rest =>
      if Ascii.eqb c sep then EmptyString :: Split rest
      else match Split rest with
           | piece :: pieces => String c piece :: pieces
           | [] => [String c EmptyString]
           end
  end.

(** [strings.TrimSuffix(s, "/")]: [s] without one trailing separator. *)
Fixpoint TrimSuffix (s : string) : string :=
  match s with
  | EmptyString => EmptyString
  | String c EmptyString => if Ascii.eqb c sep then EmptyString else s
  | String c rest => String c (TrimSuffix rest)
  end.

(** [strings.HasPrefix(s, prefix)]. *)
Definition HasPrefix (s prefix : string) : bool := String.prefix prefix s.

(** The slice expression [s[n:]]. *)
Fixpoint sliceFrom (n : nat) (s : string) : string :=
  match n, s with
  | O, _ => s
  | S n', String _ rest => sliceFrom n' rest
  | S _, EmptyString => EmptyString
  end.

End Strings.
Import Strings.

(** ** Vocabulary on strings *)

(** The number of separators in a string. *)
Fixpoint countSep (s : string) : nat :=
  match s with
  | EmptyString => 0
  | String c rest => (if Ascii.eqb c sep then 1 else 0) + countSep rest
  end.

(** Whether the last byte of a string is a separator. *)
Fixpoint endsWithSep (s : string) : bool :=
  match s with
  | EmptyString => false
  | String c EmptyString => Ascii.eqb c sep
  | String _ rest => endsWithSep rest
  end.

(** ** Errors, job records and collaborator calls *)

(** One constructor per [fmt.Errorf] of the file; [External] is an error
    coming from a collaborator. *)
Inductive error : Type :=
| External (msg : string)
| InvalidSrc (src : string)                  (* splitSrc *)
| ErrorParsingSrc (cause : error)            (* ListArtifacts, FetchArtifacts *)
| UnrecognizedKeyType (src : string)         (* ListArtifacts, default case *)
| InvalidSrcKind (src : string)              (* FetchArtifacts, default case *)
| KeyIncorrectlyFormatted (key : string)     (* FetchArtifacts, prow case *)
| ProwSrcIncorrectlyFormatted (prowKey : string)
| FailedToGetProwJob (prowKey : string) (cause : error)
| UnexpectedJobURL (url prefix : string).

Record ProwJobStatus : Type := { URL : string }.
Record ProwJob : Type := { Status : ProwJobStatus }.

Record Plank : Type := { JobURLPrefix : string }.
Record Config : Type := { plank : Plank }.

(** The interface [lenses.Artifact], of which the file calls [Size] and
    keeps only the error. *)
Class ArtifactOps (Artifact : Type) : Type :=
  { Size : Artifact -> Z * option error }.

(** A call to a collaborator. *)
Inductive Call (Artifact : Type) : Type :=
| CallGetProwJob (jobName buildID : string)
| CallArtifacts (gcsKey : string)
| CallArtifact (gcsKey name : string) (sizeLimit : Z)
| CallSize (art : Artifact)
| CallPodLog (jobName buildID : string) (sizeLimit : Z).

Arguments CallGetProwJob {Artifact} jobName buildID.
Arguments CallArtifacts {Artifact} gcsKey.
Arguments CallArtifact {Artifact} gcsKey name sizeLimit.
Arguments CallSize {Artifact} art.
Arguments CallPodLog {Artifact} jobName buildID sizeLimit.

(** ** Computations that record their collaborator calls *)

Definition Traced (Artifact A : Type) : Type := (A * list (Call Artifact))%type.

Definition ret {Artifact A : Type} (a : A) : Traced Artifact A := (a, []).

Definition bind {Artifact A B : Type}
    (m : Traced Artifact A) (k : A -> Traced Artifact B) : Traced Artifact B :=
  let (a, t1) := m in
  let (b, t2) := k a in
  (b, t1 ++ t2).

Definition call {Artifact A : Type} (c : Call Artifact) (outcome : A)
  : Traced Artifact A := (outcome, [c]).

Definition value {Artifact A : Type} (m : Traced Artifact A) : A := fst m.
Definition trace {Artifact A : Type} (m : Traced Artifact A)
  : list (Call Artifact) := snd m.

Declare Scope traced_scope.
Delimit Scope traced_scope with traced.
Notation "x <- m ;; k" := (bind m (fun x => k))
  (at level 61, m at next level, right associativity) : traced_scope.
Notation "' p <- m ;; k" := (bind m (fun x => let 'p := x in k))
  (at level 61, p pattern, m at next level, right associativity) : traced_scope.
Local Open Scope traced_scope.

(** The canonical log name. *)
Definition buildLog : string := "build-log.txt".

(** ** The program *)

Section Model.

(** The two key-type constants are declared elsewhere in the package;
    the file only compares against them. *)
Variables gcsKeyType prowKeyType : string.

Context {Artifact : Type} {ops : ArtifactOps Artifact}.

(** The parts of the receiver [s *Spyglass] that the file touches: the
    job agent, the configuration getter, the GCS artifact fetcher and
    the pod-log artifact fetcher.  The outcome of a collaborator is a
    function of its arguments for the duration of one call. *)
Record Spyglass : Type := {
  GetProwJob : string -> string -> ProwJob + error;
  config : Config;
  gcsArtifacts : string -> list string * option error;
  gcsArtifact : string -> string -> Z -> Artifact + error;
  podLogArtifact : string -> string -> Z -> Artifact + error
}.

(** [splitSrc], lines 156-165.  The named results are the empty string
    when the error is set. *)
Definition splitSrc (src : string) : string * string * option error :=
  let split := SplitN2 src in
  if (List.length split <? 2)%nat then
    (EmptyString, EmptyString, Some (InvalidSrc src))
  else
    (nth 0 split EmptyString, nth 1 split EmptyString, None).

(** [prowToGCS], lines 66-85. *)
Definition prowToGCS (s : Spyglass) (prowKey : string)
  : Traced Artifact (string * option error) :=
  let parsed := Split prowKey in
  if negb (List.length parsed =? 2)%nat then
    ret (EmptyString, Some (ProwSrcIncorrectlyFormatted prowKey))
  else
    let jobName := nth 0 parsed EmptyString in
    let buildID := nth 1 parsed EmptyString in
    r <- call (CallGetProwJob jobName buildID) (GetProwJob s jobName buildID) ;;
    match r with
    | inr err => ret (EmptyString, Some (FailedToGetProwJob prowKey err))
    | inl job =>
        let url := URL (Status job) in
        let prefix := JobURLPrefix (plank (config s)) in
        if negb (HasPrefix url prefix) then
          ret (EmptyString, Some (UnexpectedJobURL url prefix))
        else
          ret (sliceFrom (String.length prefix) url, None)
    end.

(** [ListArtifacts], lines 46-62: the listing and the canonical log
    name.  The loop that sets [logFound] is [existsb]. *)
Definition ListArtifacts_from (s : Spyglass) (gcsKey : string)
  : Traced Artifact (list string * option error) :=
  '(artifactNames, err) <- call (CallArtifacts gcsKey) (gcsArtifacts s gcsKey) ;;
  let logFound := existsb (fun name => (name =? buildLog)%string) artifactNames in
  let artifactNames :=
    if match err with Some _ => true | None => false end || negb logFound
    then artifactNames ++ [buildLog]
    else artifactNames in
  ret (artifactNames, None).

(** [ListArtifacts], lines 29-63.  A nil slice and an empty slice are
    both the empty list. *)
Definition ListArtifacts (s : Spyglass) (src : string)
  : Traced Artifact (list string * option error) :=
  let '(keyType, key, err) := splitSrc src in
  match err with
  | Some err => ret ([], Some (ErrorParsingSrc err))
  | None =>
      if (keyType =? gcsKeyType)%string then
        ListArtifacts_from s key
      else if (keyType =? prowKeyType)%string then
        '(gcsKey, _) <- prowToGCS s key ;;
        ListArtifacts_from s gcsKey
      else
        ret ([], Some (UnrecognizedKeyType src))
  end.

(** [FetchArtifacts], lines 92-121: the storage key, the job name and
    the build id of a source, or the early return. *)
Definition FetchArtifacts_keys (s : Spyglass) (src : string)
  : Traced Artifact ((string * string * string) + (list Artifact * error)) :=
  let arts : list Artifact := [] in
  let '(keyType, key, err) := splitSrc src in
  match err with
  | Some err => ret (inr (arts, ErrorParsingSrc err))
  | None =>
      if (keyType =? gcsKeyType)%string then
        let gcsKey := TrimSuffix key in
        let parts := Split gcsKey in
        if (List.length parts <? 2)%nat then
          ret (inl (gcsKey, EmptyString, EmptyString))
        else
          ret (inl (gcsKey,
                    nth (List.length parts - 2) parts EmptyString,
                    nth (List.length parts - 1) parts EmptyString))
      else if (keyType =? prowKeyType)%string then
        let parts := Split key in
        if negb (List.length parts =? 2)%nat then
          ret (inr (arts, KeyIncorrectlyFormatted key))
        else
          let jobName := nth 0 parts EmptyString in
          let buildID := nth 1 parts EmptyString in
          '(gcsKey, _) <- prowToGCS s key ;;
          ret (inl (gcsKey, jobName, buildID))
      else
        ret (inr ([], InvalidSrcKind src))
  end.

(** [FetchArtifacts], lines 124-141: the loop over the requested names,
    with the accumulated handles and the fallback flag. *)
Fixpoint FetchArtifacts_loop (s : Spyglass) (gcsKey : string) (sizeLimit : Z)
    (artifactNames : list string) (arts : list Artifact) (podLogNeeded : bool)
  : Traced Artifact (list Artifact * bool) :=
  match artifactNames with
  | [] => ret (arts, podLogNeeded)
  | name :: rest =>
      r <- call (CallArtifact gcsKey name sizeLimit)
                (gcsArtifact s gcsKey name sizeLimit) ;;
      r <- match r with
           | inl art =>
               '(_, err) <- call (CallSize art) (Size art) ;;
               ret (match err with None => inl art | Some err => inr err end)
           | inr err => ret (inr err)
           end ;;
      match r with
      | inr _ =>
          if (name =? buildLog)%string then
            FetchArtifacts_loop s gcsKey sizeLimit rest arts true
          else
            FetchArtifacts_loop s gcsKey sizeLimit rest arts podLogNeeded
      | inl art =>
          FetchArtifacts_loop s gcsKey sizeLimit rest (arts ++ [art]) podLogNeeded
      end
  end.

(** [FetchArtifacts], lines 89-154. *)
Definition FetchArtifacts (s : Spyglass) (src podName : string)
    (sizeLimit : Z) (artifactNames : list string)
  : Traced Artifact (list Artifact * option error) :=
  keys <- FetchArtifacts_keys s src ;;
  match keys with
  | inr (arts, err) => ret (arts, Some err)
  | inl (gcsKey, jobName, buildID) =>
      '(arts, podLogNeeded) <-
        FetchArtifacts_loop s gcsKey sizeLimit artifactNames [] false ;;
      if podLogNeeded then
        r <- call (CallPodLog jobName buildID sizeLimit)
                  (podLogArtifact s jobName buildID sizeLimit) ;;
        match r with
        | inr _ => ret (arts, None)
        | inl art => ret (arts ++ [art], None)
        end
      else
        ret (arts, None)
  end.

(** *** Vocabulary of the properties *)

(** The handle-or-probe step of one requested name: the handle when both
    obtaining it and reading its size succeed. *)
Definition probe (s : Spyglass) (gcsKey : string) (sizeLimit : Z)
    (name : string) : option Artifact :=
  match gcsArtifact s gcsKey name sizeLimit with
  | inl art => match snd (Size art) with
               | None => Some art
               | Some _ => None
               end
  | inr _ => None
  end.

(** The handles of the names whose step succeeds, in request order. *)
Fixpoint probed (s : Spyglass) (gcsKey : string) (sizeLimit : Z)
    (names : list string) : list Artifact :=
  match names with
  | [] => []
  | name :: rest =>
      match probe s gcsKey sizeLimit name with
      | Some art => art :: probed s gcsKey sizeLimit rest
      | None => probed s gcsKey sizeLimit rest
      end
  end.

(** Whether the step of some requested ["build-log.txt"] fails. *)
Definition logFailed (s : Spyglass) (gcsKey : string) (sizeLimit : Z)
    (names : list string) : bool :=
  existsb (fun name =>
             (name =? buildLog)%string &&
             match probe s gcsKey sizeLimit name with
             | Some _ => false
             | None => true
             end) names.

(** The handles that the pod-log fallback contributes. *)
Definition fallback (s : Spyglass) (gcsKey jobName buildID : string)
    (sizeLimit : Z) (names : list string) : list Artifact :=
  if logFailed s gcsKey sizeLimit names then
    match podLogArtifact s jobName buildID sizeLimit with
    | inl art => [art]
    | inr _ => []
    end
  else [].

(** The calls to the pod-log fetcher in a trace. *)
Definition podLogCalls (t : list (Call Artifact)) : list (Call Artifact) :=
  filter (fun c => match c with CallPodLog _ _ _ => true | _ => false end) t.

(** The storage paths handed to the storage collaborator in a trace. *)
Fixpoint storagePaths (t : list (Call Artifact)) : list string :=
  match t with
  | [] => []
  | CallArtifacts gcsKey :: rest => gcsKey :: storagePaths rest
  | CallArtifact gcsKey _ _ :: rest => gcsKey :: storagePaths rest
  | _ :: rest => storagePaths rest
  end.

End Model.

Arguments Spyglass Artifact : clear implicits.

(** ** A concrete deployment, used to run the program on examples *)

Module Sample.

Definition gcsKeyType : string := "gcs".
Definition prowKeyType : string := "prowjob".

(** Handles are named by their path; reading the size of the log of the
    first run fails. *)
#[global] Instance ops : ArtifactOps string :=
  {| Size art :=
       if (art =? "bucket/job/123/build-log.txt")%string
       then (0%Z, Some (External "object does not exist"))
       else (42%Z, None) |}.

Definition jobs (jobName buildID : string) : ProwJob + error :=
  if ((jobName =? "job") && (buildID =? "123"))%string then
    inl {| Status := {| URL := "https://prow/view/gcs/bucket/job/123" |} |}
  else if (jobName =? "odd")%string then
    inl {| Status := {| URL := "http://elsewhere/odd/1" |} |}
  else inr (External "no such job").

Definition listing (gcsKey : string) : list string * option error :=
  if (gcsKey =? "bucket/job/123")%string then (["a.txt"; "build-log.txt"], None)
  else if (gcsKey =? "bucket/job/124")%string then (["a.txt"], None)
  else if (gcsKey =? "bucket/job/125")%string
       then (["build-log.txt"; "build-log.txt"], None)
  else if (gcsKey =? "bucket/job/126")%string
       then (["build-log.txt"], Some (External "timed out"))
  else ([], Some (External "no such bucket")).

Definition open (gcsKey name : string) (sizeLimit : Z) : string + error :=
  if (gcsKey =? "")%string then inr (External "empty path")
  else if (name =? "gone.txt")%string then inr (External "no such object")
  else inl (gcsKey ++ "/" ++ name)%string.

Definition podLog (jobName buildID : string) (sizeLimit : Z) : string + error :=
  if (jobName =? "job")%string then inl ("pod:" ++ jobName ++ "/" ++ buildID)%string
  else inr (External "no pod").

Definition spyglass : Spyglass string :=
  {| GetProwJob := jobs;
     config := {| plank := {| JobURLPrefix := "https://prow/view/gcs/" |} |};
     gcsArtifacts := listing;
     gcsArtifact := open;
     podLogArtifact := podLog |}.

End Sample.

(** ** Further vocabulary on traces *)

Section Traces.

Context {Artifact : Type}.

(** The names for which a storage handle was requested, in call order. *)
Fixpoint handleRequests (t : list (Call Artifact)) : list string :=
  match t with
  | [] => []
  | CallArtifact _ name _ :: rest => name :: handleRequests rest
  | _ :: rest => handleRequests rest
  end.

(** The handles whose size was read, in call order. *)
Fixpoint sizeProbes (t : list (Call Artifact)) : list Artifact :=
  match t with
  | [] => []
  | CallSize art :: rest => art :: sizeProbes rest
  | _ :: rest => sizeProbes rest
  end.

(** The handles that the storage fetcher hands out for a list of names. *)
Fixpoint obtained (s : Spyglass Artifact) (gcsKey : string) (sizeLimit : Z)
    (names : list string) : list Artifact :=
  match names with
  | [] => []
  | name :: rest =>
      match gcsArtifact s gcsKey name sizeLimit with
      | inl art => art :: obtained s gcsKey sizeLimit rest
      | inr _ => obtained s gcsKey sizeLimit rest
      end
  end.

End Traces.

(** ** Facts about the string functions *)

Lemma sep_eqb_true (c : ascii) : Ascii.eqb c sep = true -> c = sep.
Proof. apply Ascii.eqb_eq. Qed.

Lemma countSep_app (a b : string) :
  countSep (a ++ b) = countSep a + countSep b.
Proof.
  induction a as [|c a IH]; simpl; [reflexivity|].
  rewrite IH. lia.
Qed.

Lemma Cut_None (s : string) : Cut s = None <-> countSep s = 0.
Proof.
  induction s as [|c s IH]; simpl.
  - split; reflexivity.
  - destruct (Ascii.eqb c sep).
    + split; discriminate.
    + destruct (Cut s) as [[before after]|].
      * split; [discriminate|]. intros H. apply IH in H. discriminate.
      * simpl. exact IH.
Qed.

Lemma Cut_Some (s before after : string) :
  Cut s = Some (before, after) <->
  s = (before ++ String sep after)%string /\ countSep before = 0.
Proof.
  revert before. induction s as [|c s IH]; intros before; simpl.
  - split; [discriminate|]. intros [H _]. destruct before; discriminate.
  - destruct (Ascii.eqb c sep) eqn:Ec.
    + apply sep_eqb_true in Ec. subst c. split.
      * intros H. injection H as <- <-. split; reflexivity.
      * intros [H Hc]. destruct before as [|b before]; simpl in *.
        -- injection H as <-. reflexivity.
        -- injection H as <- _. simpl in Hc. discriminate.
    + destruct (Cut s) as [[b1 a1]|] eqn:Es.
      * split.
        -- intros H. injection H as <- <-.
           destruct (proj1 (IH b1) eq_refl) as [-> Hc].
           simpl. rewrite Ec. split; [reflexivity | exact Hc].
        -- intros [H Hc]. destruct before as [|b before]; simpl in *.
           ++ injection H as -> _. rewrite Ascii.eqb_refl in Ec. discriminate.
           ++ injection H as <- H. rewrite Ec in Hc. simpl in Hc.
              assert (Hs : Some (b1, a1) = Some (before, after))
                by (apply IH; split; assumption).
              injection Hs as -> ->. reflexivity.
      * split; [discriminate|].
        intros [H Hc]. destruct before as [|b before]; simpl in *.
        -- injection H as -> _. rewrite Ascii.eqb_refl in Ec. discriminate.
        -- injection H as <- H. rewrite Ec in Hc. simpl in Hc.
           assert (Hs : None = Some (before, after))
             by (apply IH; split; assumption).
           discriminate.
Qed.

(** [countSep] counts what the parser looks for: a string has a separator
    exactly when it is some text, a separator and some more text. *)
Lemma countSep_pos (s : string) :
  0 < countSep s <->
  exists before after, s = (before ++ String sep after)%string.
Proof.
  split.
  - intros H. destruct (Cut s) as [[before after]|] eqn:E.
    + exists before, after. apply Cut_Some, E.
    + apply Cut_None in E. lia.
  - intros (before & after & ->). rewrite countSep_app. simpl. lia.
Qed.

Lemma Split_length (s : string) : List.length (Split s) = countSep s + 1.
Proof.
  induction s as [|c s IH]; simpl; [reflexivity|].
  destruct (Ascii.eqb c sep); simpl.
  - rewrite IH. reflexivity.
  - destruct (Split s) as [|piece pieces]; simpl in *; lia.
Qed.

Lemma Split_no_sep (s : string) : countSep s = 0 -> Split s = [s].
Proof.
  induction s as [|c s IH]; simpl; [reflexivity|].
  destruct (Ascii.eqb c sep); simpl; [discriminate|].
  intros H. rewrite (IH H). reflexivity.
Qed.

Lemma Split_app (a b : string) :
  countSep a = 0 -> Split (a ++ String sep b) = a :: Split b.
Proof.
  induction a as [|c a IH]; simpl.
  - intros _. reflexivity.
  - destruct (Ascii.eqb c sep); simpl; [discriminate|].
    intros H. rewrite (IH H). reflexivity.
Qed.

Lemma Split_two (jobName buildID : string) :
  countSep jobName = 0 -> countSep buildID = 0 ->
  Split (jobName ++ String sep buildID) = [jobName; buildID].
Proof.
  intros Hj Hb. rewrite (Split_app _ _ Hj), (Split_no_sep _ Hb). reflexivity.
Qed.

Lemma HasPrefix_app (prefix suffix : string) :
  HasPrefix (prefix ++ suffix) prefix = true.
Proof.
  unfold HasPrefix. induction prefix as [|c p IH]; simpl.
  - destruct suffix; reflexivity.
  - destruct (ascii_dec c c) as [_|n]; [exact IH | contradiction].
Qed.

Lemma HasPrefix_inv (url prefix : string) :
  HasPrefix url prefix = true -> exists suffix, url = (prefix ++ suffix)%string.
Proof.
  unfold HasPrefix. revert url. induction prefix as [|c p IH]; intros url H.
  - exists url. reflexivity.
  - destruct url as [|d url]; simpl in H; [discriminate|].
    destruct (ascii_dec c d) as [->|_]; [|discriminate].
    destruct (IH _ H) as [suffix ->]. exists suffix. reflexivity.
Qed.

Lemma sliceFrom_app (prefix suffix : string) :
  sliceFrom (String.length prefix) (prefix ++ suffix) = suffix.
Proof. induction prefix as [|c p IH]; simpl; [reflexivity | exact IH]. Qed.

Lemma TrimSuffix_spec (s : string) :
  (endsWithSep s = true /\ s = (TrimSuffix s ++ String sep EmptyString)%string) \/
  (endsWithSep s = false /\ s = TrimSuffix s).
Proof.
  induction s as [|c s IH]; [right; split; reflexivity|].
  destruct s as [|d s].
  - simpl. destruct (Ascii.eqb c sep) eqn:Ec.
    + left. apply sep_eqb_true in Ec. subst c. split; reflexivity.
    + right. split; reflexivity.
  - change (TrimSuffix (String c (String d s)))
      with (String c (TrimSuffix (String d s))).
    change (endsWithSep (String c (String d s)))
      with (endsWithSep (String d s)).
    destruct IH as [[He Hs]|[He Hs]]; [left|right]; split; try exact He;
      simpl; f_equal; exact Hs.
Qed.

(** ** The reference parser *)

Lemma splitSrc_no_sep (src : string) :
  countSep src = 0 ->
  splitSrc src = (EmptyString, EmptyString, Some (InvalidSrc src)).
Proof.
  intros H. unfold splitSrc, SplitN2.
  rewrite (proj2 (Cut_None src) H). reflexivity.
Qed.

Lemma splitSrc_Cut (src keyType key : string) :
  Cut src = Some (keyType, key) -> splitSrc src = (keyType, key, None).
Proof. intros H. unfold splitSrc, SplitN2. rewrite H. reflexivity. Qed.

Lemma splitSrc_ok (src keyType key : string) :
  splitSrc src = (keyType, key, None) <->
  src = (keyType ++ String sep key)%string /\ countSep keyType = 0.
Proof.
  rewrite <- Cut_Some. unfold splitSrc, SplitN2.
  destruct (Cut src) as [[before after]|]; simpl.
  - split; intros H; injection H as <- <-; reflexivity.
  - split; discriminate.
Qed.

Lemma splitSrc_cases (src : string) :
  (countSep src = 0 /\
   splitSrc src = (EmptyString, EmptyString, Some (InvalidSrc src))) \/
  (0 < countSep src /\
   exists keyType key, splitSrc src = (keyType, key, None)).
Proof.
  destruct (Cut src) as [[before after]|] eqn:E.
  - right. split.
    + destruct (Nat.eq_dec (countSep src) 0) as [H|H]; [|lia].
      apply Cut_None in H. congruence.
    + exists before, after. apply splitSrc_Cut, E.
  - left. apply Cut_None in E. split; [exact E | apply splitSrc_no_sep, E].
Qed.

(** C9, as stated, fails: the reference ["gcs/"] contains a separator and
    is accepted, and the key that [splitSrc] produces is empty. *)
Lemma splitSrc_empty_key :
  0 < countSep "gcs/" /\ splitSrc "gcs/" = ("gcs", "", None).
Proof. split; [simpl; lia | reflexivity]. Qed.

(** C9, amended: a reference with at least one separator is accepted; the
    key type is the separator-free text before the first separator and the
    key is all the text after it, which is empty exactly when the first
    separator is the last byte of the reference. *)
Theorem splitSrc_key (src : string) :
  0 < countSep src ->
  exists keyType key,
    splitSrc src = (keyType, key, None) /\
    src = (keyType ++ String sep key)%string /\
    countSep keyType = 0 /\
    (key = EmptyString <-> src = (keyType ++ String sep EmptyString)%string).
Proof.
  intros Hsep.
  destruct (splitSrc_cases src) as [[H0 _]|[_ (keyType & key & E)]]; [lia|].
  exists keyType, key.
  destruct (proj1 (splitSrc_ok _ _ _) E) as [Hsrc Hkt].
  repeat split; try assumption.
  - intros ->. exact Hsrc.
  - intros H. rewrite Hsrc in H.
    clear - H. induction keyType as [|c kt IH]; simpl in H.
    + injection H as ->. reflexivity.
    + injection H as H. exact (IH H).
Qed.

Lemma splitSrc_key_witness :
  exists keyType key,
    splitSrc "gcs/bucket/job/123" = (keyType, key, None) /\
    "gcs/bucket/job/123" = (keyType ++ String sep key)%string /\
    countSep keyType = 0 /\
    (key = EmptyString <->
     "gcs/bucket/job/123" = (keyType ++ String sep EmptyString)%string).
Proof. apply (splitSrc_key "gcs/bucket/job/123"). simpl. lia. Defined.

(** ** More facts about the string functions *)

Lemma Split_nonempty (s : string) : Split s <> [].
Proof.
  intros H. pose proof (Split_length s) as L. rewrite H in L. simpl in L. lia.
Qed.

(** Splitting around a separator splits both sides. *)
Lemma Split_around (a b : string) :
  Split (a ++ String sep b) = Split a ++ Split b.
Proof.
  induction a as [|c a IH]; simpl; [reflexivity|].
  destruct (Ascii.eqb c sep).
  - rewrite IH. reflexivity.
  - rewrite IH. destruct (Split a) as [|piece pieces] eqn:E.
    + exfalso. exact (Split_nonempty a E).
    + reflexivity.
Qed.

Lemma Split_pieces (s : string) :
  Forall (fun piece => countSep piece = 0) (Split s).
Proof.
  induction s as [|c s IH]; simpl.
  - constructor; [reflexivity | constructor].
  - destruct (Ascii.eqb c sep) eqn:Ec.
    + constructor; [reflexivity | exact IH].
    + destruct (Split s) as [|piece pieces].
      * constructor; [simpl; rewrite Ec; reflexivity | constructor].
      * inversion IH as [|? ? Hp Hps]; subst.
        constructor; [simpl; rewrite Ec; exact Hp | exact Hps].
Qed.

Lemma TrimSuffix_app_sep (s : string) :
  TrimSuffix (s ++ String sep EmptyString) = s.
Proof.
  induction s as [|c s IH]; [reflexivity|].
  change ((String c s ++ String sep EmptyString)%string)
    with (String c (s ++ String sep EmptyString)).
  destruct (s ++ String sep EmptyString)%string as [|d rest] eqn:E.
  - destruct s; discriminate.
  - change (TrimSuffix (String c (String d rest)))
      with (String c (TrimSuffix (String d rest))).
    rewrite IH. reflexivity.
Qed.

Lemma TrimSuffix_id (s : string) : endsWithSep s = false -> TrimSuffix s = s.
Proof.
  intros H. destruct (TrimSuffix_spec s) as [[He _]|[_ Hs]].
  - congruence.
  - symmetry. exact Hs.
Qed.

Lemma endsWithSep_no_sep (s : string) : countSep s = 0 -> endsWithSep s = false.
Proof.
  induction s as [|c s IH]; [reflexivity|].
  simpl countSep. destruct (Ascii.eqb c sep) eqn:Ec; [discriminate|].
  intros H. destruct s as [|d s]; [exact Ec|].
  change (endsWithSep (String c (String d s))) with (endsWithSep (String d s)).
  apply IH. exact H.
Qed.

Lemma endsWithSep_app (a b : string) :
  b <> EmptyString -> endsWithSep (a ++ b) = endsWithSep b.
Proof.
  intros Hb. induction a as [|c a IH]; [reflexivity|].
  change ((String c a ++ b)%string) with (String c (a ++ b)).
  destruct (a ++ b)%string as [|d rest] eqn:E.
  - destruct a; simpl in E; [contradiction | discriminate].
  - change (endsWithSep (String c (String d rest)))
      with (endsWithSep (String d rest)).
    exact IH.
Qed.

Lemma string_app_assoc (a b c : string) :
  ((a ++ b) ++ c)%string = (a ++ (b ++ c))%string.
Proof. induction a as [|x a IH]; simpl; [reflexivity | rewrite IH; reflexivity]. Qed.

Lemma string_app_nil_r (a : string) : (a ++ EmptyString)%string = a.
Proof. induction a as [|x a IH]; simpl; [reflexivity | rewrite IH; reflexivity]. Qed.
(** ** The two entry points *)

Section Properties.

Variables gcsKeyType prowKeyType : string.

(** Go rejects a switch with the same constant in two cases. *)
Hypothesis keyTypes_distinct : gcsKeyType <> prowKeyType.

Context {Artifact : Type} {ops : ArtifactOps Artifact}.

Implicit Types (s : Spyglass Artifact) (src key : string).

Local Abbreviation List := (ListArtifacts gcsKeyType prowKeyType).
Local Abbreviation Fetch := (FetchArtifacts gcsKeyType prowKeyType).
Local Abbreviation FetchKeys := (FetchArtifacts_keys gcsKeyType prowKeyType).

(** C3: a reference without a separator makes both [ListArtifacts] and
    [FetchArtifacts] return an error together with an empty list, before
    any collaborator is called. *)
Theorem malformed_reference_rejected s src podName sizeLimit names :
  countSep src = 0 ->
  List s src = ([], Some (ErrorParsingSrc (InvalidSrc src)), []) /\
  Fetch s src podName sizeLimit names =
    ([], Some (ErrorParsingSrc (InvalidSrc src)), []).
Proof.
  intros H.
  unfold ListArtifacts, FetchArtifacts, FetchArtifacts_keys.
  rewrite (splitSrc_no_sep src H). split; reflexivity.
Qed.



(** *** Job-to-storage resolution *)

Lemma prowToGCS_found s prowKey jobName buildID job :
  Split prowKey = [jobName; buildID] ->
  GetProwJob s jobName buildID = inl job ->
  prowToGCS s prowKey =
    (if HasPrefix (URL (Status job)) (JobURLPrefix (plank (config s)))
     then (sliceFrom (String.length (JobURLPrefix (plank (config s))))
                     (URL (Status job)), None)
     else (EmptyString,
           Some (UnexpectedJobURL (URL (Status job))
                                  (JobURLPrefix (plank (config s))))),
     [CallGetProwJob jobName buildID]).
Proof.
  intros Hsplit Hjob. unfold prowToGCS. rewrite Hsplit. simpl.
  unfold bind, call. rewrite Hjob.
  destruct (HasPrefix _ _); reflexivity.
Qed.

(** C4: for a job key of exactly two parts whose job is found, a status
    URL made of the configured prefix and a suffix resolves to that
    suffix, and a status URL that does not start with the prefix makes the
    resolution fail with the prefix-mismatch error. *)
Theorem prowToGCS_resolution s prowKey jobName buildID job :
  Split prowKey = [jobName; buildID] ->
  GetProwJob s jobName buildID = inl job ->
  (forall suffix,
      URL (Status job) = (JobURLPrefix (plank (config s)) ++ suffix)%string ->
      value (prowToGCS s prowKey) = (suffix, None)) /\
  ((forall suffix,
      URL (Status job) <> (JobURLPrefix (plank (config s)) ++ suffix)%string) ->
   value (prowToGCS s prowKey) =
     (EmptyString,
      Some (UnexpectedJobURL (URL (Status job))
                             (JobURLPrefix (plank (config s)))))).
Proof.
  intros Hsplit Hjob.
  rewrite (prowToGCS_found s prowKey jobName buildID job Hsplit Hjob).
  unfold value. simpl. split.
  - intros suffix Hurl. rewrite Hurl, HasPrefix_app, sliceFrom_app.
    reflexivity.
  - intros Hno.
    destruct (HasPrefix _ _) eqn:E; [|reflexivity].
    apply HasPrefix_inv in E. destruct E as [suffix E].
    exfalso. exact (Hno suffix E).
Qed.


(** *** Listing *)

Lemma existsb_buildLog (names : list string) :
  existsb (fun name => (name =? buildLog)%string) names = true <->
  In buildLog names.
Proof.
  rewrite existsb_exists. split.
  - intros (name & Hin & Heq). apply String.eqb_eq in Heq. subst. exact Hin.
  - intros Hin. exists buildLog. split; [exact Hin | apply String.eqb_refl].
Qed.

Lemma ListArtifacts_from_trace s gcsKey :
  trace (ListArtifacts_from s gcsKey) = [CallArtifacts gcsKey].
Proof.
  unfold ListArtifacts_from, bind, call, trace.
  destruct (gcsArtifacts s gcsKey) as [listed err]. reflexivity.
Qed.

Lemma ListArtifacts_from_ok s gcsKey :
  snd (value (ListArtifacts_from s gcsKey)) = None.
Proof.
  unfold ListArtifacts_from, bind, call, value.
  destruct (gcsArtifacts s gcsKey) as [listed err]. reflexivity.
Qed.

Lemma ListArtifacts_gcs s src key :
  splitSrc src = (gcsKeyType, key, None) ->
  List s src = ListArtifacts_from s key.
Proof.
  intros H. unfold ListArtifacts. rewrite H, String.eqb_refl. reflexivity.
Qed.

Lemma ListArtifacts_prow s src key :
  splitSrc src = (prowKeyType, key, None) ->
  List s src =
    ('(gcsKey, _) <- prowToGCS s key ;; ListArtifacts_from s gcsKey).
Proof.
  intros H. unfold ListArtifacts. rewrite H.
  destruct (String.eqb_spec prowKeyType gcsKeyType) as [E|_].
  - symmetry in E. contradiction.
  - rewrite String.eqb_refl. reflexivity.
Qed.

Lemma ListArtifacts_unknown s src keyType key :
  splitSrc src = (keyType, key, None) ->
  keyType <> gcsKeyType -> keyType <> prowKeyType ->
  List s src = ([], Some (UnrecognizedKeyType src), []).
Proof.
  intros H Hg Hp. unfold ListArtifacts. rewrite H.
  destruct (String.eqb_spec keyType gcsKeyType); [contradiction|].
  destruct (String.eqb_spec keyType prowKeyType); [contradiction|].
  reflexivity.
Qed.

Lemma ListArtifacts_no_sep s src :
  countSep src = 0 ->
  List s src = ([], Some (ErrorParsingSrc (InvalidSrc src)), []).
Proof.
  intros H. unfold ListArtifacts. rewrite (splitSrc_no_sep src H).
  reflexivity.
Qed.

(** A successful listing call went through the storage listing of exactly
    one path. *)
Lemma ListArtifacts_success s src names tr :
  List s src = (names, None, tr) ->
  exists gcsKey,
    In (CallArtifacts gcsKey) tr /\
    value (ListArtifacts_from s gcsKey) = (names, None).
Proof.
  unfold ListArtifacts.
  destruct (splitSrc src) as [[keyType key] [err|]]; [discriminate|].
  destruct (keyType =? gcsKeyType)%string.
  - intros H. exists key. split.
    + pose proof (ListArtifacts_from_trace s key) as Ht.
      rewrite H in Ht. simpl in Ht. subst tr. left. reflexivity.
    + rewrite H. reflexivity.
  - destruct (keyType =? prowKeyType)%string; [|discriminate].
    unfold bind. destruct (prowToGCS s key) as [[gcsKey e] t1].
    destruct (ListArtifacts_from s gcsKey) as [r t2] eqn:E.
    intros H. injection H as -> <-. exists gcsKey. split.
    + pose proof (ListArtifacts_from_trace s gcsKey) as Ht.
      rewrite E in Ht. simpl in Ht. subst t2.
      apply in_or_app. right. left. reflexivity.
    + rewrite E. reflexivity.
Qed.

(** Whatever the listing returned, a successful result names the log. *)
Lemma ListArtifacts_log_present s src names tr :
  List s src = (names, None, tr) -> In buildLog names.
Proof.
  intros H. apply ListArtifacts_success in H.
  destruct H as (gcsKey & _ & H). revert H.
  unfold ListArtifacts_from, bind, call, value.
  destruct (gcsArtifacts s gcsKey) as [listed err]. simpl.
  destruct err as [e|]; simpl.
  - intros H. injection H as <-. apply in_or_app. right. left. reflexivity.
  - destruct (existsb _ listed) eqn:E; simpl; intros H; injection H as <-.
    + apply existsb_buildLog, E.
    + apply in_or_app. right. left. reflexivity.
Qed.

(** C1, amended: when [ListArtifacts] succeeds and the names that the
    storage listing returned contain ["build-log.txt"] at most once and,
    if the listing failed, not at all, the result contains
    ["build-log.txt"] exactly once. *)
Theorem ListArtifacts_log_once s src names tr :
  List s src = (names, None, tr) ->
  (forall gcsKey, In (CallArtifacts gcsKey) tr ->
     count_occ string_dec (fst (gcsArtifacts s gcsKey)) buildLog <= 1 /\
     (snd (gcsArtifacts s gcsKey) <> None ->
      ~ In buildLog (fst (gcsArtifacts s gcsKey)))) ->
  count_occ string_dec names buildLog = 1.
Proof.
  intros H Hlisting. apply ListArtifacts_success in H.
  destruct H as (gcsKey & Hin & H).
  specialize (Hlisting gcsKey Hin). destruct Hlisting as [Hle Herr].
  revert H. unfold ListArtifacts_from, bind, call, value.
  destruct (gcsArtifacts s gcsKey) as [listed err]. simpl in *.
  destruct err as [e|]; simpl.
  - intros H. injection H as <-.
    assert (Hno : ~ In buildLog listed) by (apply Herr; discriminate).
    rewrite count_occ_app. simpl.
    rewrite (proj1 (count_occ_not_In string_dec listed buildLog) Hno).
    destruct (string_dec buildLog buildLog); [reflexivity | contradiction].
  - destruct (existsb _ listed) eqn:E; simpl; intros H; injection H as <-.
    + apply existsb_buildLog in E.
      apply (count_occ_In string_dec) in E. lia.
    + assert (Hno : ~ In buildLog listed).
      { intros Hin'. apply existsb_buildLog in Hin'. congruence. }
      rewrite count_occ_app. simpl.
      rewrite (proj1 (count_occ_not_In string_dec listed buildLog) Hno).
      destruct (string_dec buildLog buildLog); [reflexivity | contradiction].
Qed.


(** *** Fetching *)

Lemma value_bind {A B : Type} (m : Traced Artifact A)
    (k : A -> Traced Artifact B) :
  value (bind m k) = value (k (value m)).
Proof.
  unfold value, bind. destruct m as [a t1]. simpl.
  destruct (k a). reflexivity.
Qed.

Lemma trace_bind {A B : Type} (m : Traced Artifact A)
    (k : A -> Traced Artifact B) :
  trace (bind m k) = trace m ++ trace (k (value m)).
Proof.
  unfold value, trace, bind. destruct m as [a t1]. simpl.
  destruct (k a). reflexivity.
Qed.

Lemma podLogCalls_app (t1 t2 : list (Call Artifact)) :
  podLogCalls (t1 ++ t2) = podLogCalls t1 ++ podLogCalls t2.
Proof. apply filter_app. Qed.

Lemma storagePaths_app (t1 t2 : list (Call Artifact)) :
  storagePaths (t1 ++ t2) = storagePaths t1 ++ storagePaths t2.
Proof.
  induction t1 as [|c t1 IH]; [reflexivity|].
  destruct c; simpl; rewrite IH; reflexivity.
Qed.

(** One turn of the loop: the call for the handle, the size probe when the
    handle was obtained, and the rest of the loop on the updated handles
    and flag. *)
Lemma FetchArtifacts_loop_cons s gcsKey sizeLimit name rest arts need :
  FetchArtifacts_loop s gcsKey sizeLimit (name :: rest) arts need =
    let arts' := match probe s gcsKey sizeLimit name with
                 | Some art => arts ++ [art]
                 | None => arts
                 end in
    let need' := match probe s gcsKey sizeLimit name with
                 | Some _ => need
                 | None => if (name =? buildLog)%string then true else need
                 end in
    let next := FetchArtifacts_loop s gcsKey sizeLimit rest arts' need' in
    (value next,
     CallArtifact gcsKey name sizeLimit ::
       match gcsArtifact s gcsKey name sizeLimit with
       | inl art => [CallSize art]
       | inr _ => []
       end ++ trace next).
Proof.
  cbn [FetchArtifacts_loop]. unfold probe, bind, call, ret, value, trace.
  destruct (gcsArtifact s gcsKey name sizeLimit) as [art|e]; simpl.
  - destruct (Size art) as [z [e|]]; simpl.
    + destruct (name =? buildLog)%string;
        destruct (FetchArtifacts_loop _ _ _ _ _ _); reflexivity.
    + destruct (FetchArtifacts_loop _ _ _ _ _ _); reflexivity.
  - destruct (name =? buildLog)%string;
      destruct (FetchArtifacts_loop _ _ _ _ _ _); reflexivity.
Qed.

Lemma FetchArtifacts_loop_value s gcsKey sizeLimit names :
  forall arts need,
    value (FetchArtifacts_loop s gcsKey sizeLimit names arts need) =
      (arts ++ probed s gcsKey sizeLimit names,
       need || logFailed s gcsKey sizeLimit names).
Proof.
  induction names as [|name rest IH]; intros arts need.
  - simpl. unfold value, ret. simpl.
    rewrite app_nil_r, orb_false_r. reflexivity.
  - rewrite FetchArtifacts_loop_cons. cbv zeta. unfold value at 1. simpl fst.
    rewrite IH. unfold logFailed. simpl.
    destruct (probe s gcsKey sizeLimit name) as [art|].
    + rewrite <- app_assoc, andb_false_r. reflexivity.
    + destruct (name =? buildLog)%string; simpl.
      * rewrite orb_true_r. reflexivity.
      * reflexivity.
Qed.

Lemma FetchArtifacts_loop_podLogCalls s gcsKey sizeLimit names :
  forall arts need,
    podLogCalls (trace (FetchArtifacts_loop s gcsKey sizeLimit names arts need))
    = [].
Proof.
  induction names as [|name rest IH]; intros arts need; [reflexivity|].
  rewrite FetchArtifacts_loop_cons. cbv zeta. unfold trace at 1. simpl snd.
  change (?c :: ?l ++ ?t) with ((c :: l) ++ t).
  rewrite podLogCalls_app, IH.
  destruct (gcsArtifact s gcsKey name sizeLimit); reflexivity.
Qed.

Lemma FetchArtifacts_loop_storagePaths s gcsKey sizeLimit names :
  forall arts need,
    storagePaths (trace (FetchArtifacts_loop s gcsKey sizeLimit names arts need))
    = repeat gcsKey (List.length names).
Proof.
  induction names as [|name rest IH]; intros arts need; [reflexivity|].
  rewrite FetchArtifacts_loop_cons. cbv zeta. unfold trace at 1. simpl snd.
  change (?c :: ?l ++ ?t) with ((c :: l) ++ t).
  rewrite storagePaths_app, IH.
  destruct (gcsArtifact s gcsKey name sizeLimit); reflexivity.
Qed.

Lemma prowToGCS_trace s prowKey :
  podLogCalls (trace (prowToGCS s prowKey)) = [] /\
  storagePaths (trace (prowToGCS s prowKey)) = [].
Proof.
  unfold prowToGCS. destruct (negb _); [split; reflexivity|].
  unfold bind, call, ret, trace.
  destruct (GetProwJob s _ _) as [job|e]; [|split; reflexivity].
  destruct (negb _); split; reflexivity.
Qed.

Lemma FetchArtifacts_keys_trace s src :
  podLogCalls (trace (FetchKeys s src)) = [] /\
  storagePaths (trace (FetchKeys s src)) = [].
Proof.
  unfold FetchArtifacts_keys.
  destruct (splitSrc src) as [[keyType key] [err|]]; [split; reflexivity|].
  destruct (keyType =? gcsKeyType)%string.
  - destruct (_ <? 2)%nat; split; reflexivity.
  - destruct (keyType =? prowKeyType)%string; [|split; reflexivity].
    destruct (negb _); [split; reflexivity|].
    rewrite trace_bind.
    destruct (value (prowToGCS s key)) as [gcsKey e].
    rewrite podLogCalls_app, storagePaths_app.
    destruct (prowToGCS_trace s key) as [-> ->]. split; reflexivity.
Qed.

(** What a fetch does once the keys of its source are known. *)
Lemma FetchArtifacts_spec s src podName sizeLimit names
    gcsKey jobName buildID tr0 :
  FetchKeys s src = (inl (gcsKey, jobName, buildID), tr0) ->
  value (Fetch s src podName sizeLimit names) =
    (probed s gcsKey sizeLimit names ++
       fallback s gcsKey jobName buildID sizeLimit names, None) /\
  podLogCalls (trace (Fetch s src podName sizeLimit names)) =
    (if logFailed s gcsKey sizeLimit names
     then [CallPodLog jobName buildID sizeLimit] else []) /\
  storagePaths (trace (Fetch s src podName sizeLimit names)) =
    repeat gcsKey (List.length names).
Proof.
  intros Hkeys.
  pose proof (FetchArtifacts_keys_trace s src) as [Hp0 Hs0].
  unfold FetchArtifacts. rewrite value_bind, trace_bind.
  rewrite podLogCalls_app, storagePaths_app, Hp0, Hs0.
  assert (Hv : value (FetchKeys s src) = inl (gcsKey, jobName, buildID))
    by (rewrite Hkeys; reflexivity).
  rewrite Hv.
  rewrite value_bind, trace_bind, podLogCalls_app, storagePaths_app.
  rewrite FetchArtifacts_loop_podLogCalls, FetchArtifacts_loop_storagePaths.
  rewrite FetchArtifacts_loop_value. simpl orb. unfold fallback.
  destruct (logFailed s gcsKey sizeLimit names).
  - unfold bind, call, ret, value, trace. simpl.
    destruct (podLogArtifact s jobName buildID sizeLimit) as [art|e]; simpl;
      rewrite ?app_nil_r; repeat split; reflexivity.
  - unfold ret, value, trace. simpl. rewrite !app_nil_r.
    repeat split; reflexivity.
Qed.

Lemma FetchArtifacts_early s src podName sizeLimit names arts err tr0 :
  FetchKeys s src = (inr (arts, err), tr0) ->
  Fetch s src podName sizeLimit names = (arts, Some err, tr0).
Proof.
  intros Hkeys. unfold FetchArtifacts, bind. rewrite Hkeys.
  unfold ret. rewrite app_nil_r. reflexivity.
Qed.


(** *** The keys of a source *)

Lemma FetchArtifacts_keys_no_sep s src :
  countSep src = 0 ->
  FetchKeys s src = (inr ([], ErrorParsingSrc (InvalidSrc src)), []).
Proof.
  intros H. unfold FetchArtifacts_keys. rewrite (splitSrc_no_sep src H).
  reflexivity.
Qed.

Lemma FetchArtifacts_keys_gcs s src key :
  splitSrc src = (gcsKeyType, key, None) ->
  exists jobName buildID,
    FetchKeys s src = (inl (TrimSuffix key, jobName, buildID), []) /\
    let parts := Split (TrimSuffix key) in
    (List.length parts < 2 /\ jobName = EmptyString /\ buildID = EmptyString) \/
    (2 <= List.length parts /\
     jobName = nth (List.length parts - 2) parts EmptyString /\
     buildID = nth (List.length parts - 1) parts EmptyString).
Proof.
  intros H. unfold FetchArtifacts_keys. rewrite H, String.eqb_refl.
  destruct (Nat.ltb_spec (List.length (Split (TrimSuffix key))) 2) as [Hl|Hl].
  - exists EmptyString, EmptyString. split; [reflexivity|]. left. auto.
  - eexists _, _. split; [reflexivity|]. right. auto.
Qed.

Lemma FetchArtifacts_keys_prow s src key jobName buildID :
  splitSrc src = (prowKeyType, key, None) ->
  Split key = [jobName; buildID] ->
  FetchKeys s src =
    (inl (fst (value (prowToGCS s key)), jobName, buildID),
     trace (prowToGCS s key)).
Proof.
  intros H Hsplit. unfold FetchArtifacts_keys. rewrite H.
  destruct (String.eqb_spec prowKeyType gcsKeyType) as [E|_].
  - symmetry in E. contradiction.
  - rewrite String.eqb_refl, Hsplit. simpl.
    unfold bind, ret, value, trace.
    destruct (prowToGCS s key) as [[gcsKey e] t]. simpl.
    rewrite app_nil_r. reflexivity.
Qed.

Lemma FetchArtifacts_keys_prow_bad s src key :
  splitSrc src = (prowKeyType, key, None) ->
  List.length (Split key) <> 2 ->
  FetchKeys s src = (inr ([], KeyIncorrectlyFormatted key), []).
Proof.
  intros H Hlen. unfold FetchArtifacts_keys. rewrite H.
  destruct (String.eqb_spec prowKeyType gcsKeyType) as [E|_].
  - symmetry in E. contradiction.
  - rewrite String.eqb_refl.
    destruct (Nat.eqb_spec (List.length (Split key)) 2); [contradiction|].
    reflexivity.
Qed.

Lemma FetchArtifacts_keys_unknown s src keyType key :
  splitSrc src = (keyType, key, None) ->
  keyType <> gcsKeyType -> keyType <> prowKeyType ->
  FetchKeys s src = (inr ([], InvalidSrcKind src), []).
Proof.
  intros H Hg Hp. unfold FetchArtifacts_keys. rewrite H.
  destruct (String.eqb_spec keyType gcsKeyType); [contradiction|].
  destruct (String.eqb_spec keyType prowKeyType); [contradiction|].
  reflexivity.
Qed.

Lemma length_two {A : Type} (l : list A) :
  List.length l = 2 -> exists a b, l = [a; b].
Proof.
  destruct l as [|a [|b [|c l]]]; try discriminate.
  intros _. exists a, b. reflexivity.
Qed.

Lemma FetchArtifacts_ok s src podName sizeLimit names keys tr0 :
  FetchKeys s src = (inl keys, tr0) ->
  snd (value (Fetch s src podName sizeLimit names)) = None.
Proof.
  destruct keys as [[gcsKey jobName] buildID]. intros H.
  destruct (FetchArtifacts_spec s src podName sizeLimit names _ _ _ _ H)
    as [-> _].
  reflexivity.
Qed.

(** *** When the entry points fail *)

(** C2, amended: [ListArtifacts] returns an error exactly when the
    reference has no separator or its key type is neither of the two
    recognised ones; [FetchArtifacts] returns an error exactly when the
    reference has no separator, or its key type is not recognised, or it
    is job-addressed and its key does not split into exactly two parts.
    For every other input, whatever the collaborators answer, both
    succeed. *)
Theorem entry_points_fail_iff s src podName sizeLimit names :
  (snd (value (List s src)) <> None <->
   countSep src = 0 \/
   exists keyType key,
     splitSrc src = (keyType, key, None) /\
     keyType <> gcsKeyType /\ keyType <> prowKeyType) /\
  (snd (value (Fetch s src podName sizeLimit names)) <> None <->
   countSep src = 0 \/
   exists keyType key,
     splitSrc src = (keyType, key, None) /\
     ((keyType <> gcsKeyType /\ keyType <> prowKeyType) \/
      (keyType = prowKeyType /\ List.length (Split key) <> 2))).
Proof.
  destruct (splitSrc_cases src) as [[H0 _]|[Hpos (keyType & key & E)]].
  - rewrite (ListArtifacts_no_sep s src H0).
    rewrite (FetchArtifacts_early s src podName sizeLimit names _ _ _
               (FetchArtifacts_keys_no_sep s src H0)).
    split; (split; [intros _; left; exact H0 | intros _; discriminate]).
  - destruct (string_dec keyType gcsKeyType) as [->|Hg];
      [|destruct (string_dec keyType prowKeyType) as [->|Hp]].
    + (* storage-addressed *)
      split; split.
      * rewrite (ListArtifacts_gcs s src key E), ListArtifacts_from_ok.
        congruence.
      * intros [H0|(kt & k & E' & Hkt & _)]; [lia|].
        rewrite E in E'. injection E' as <- <-. contradiction.
      * destruct (FetchArtifacts_keys_gcs s src key E) as (j & b & Hk & _).
        rewrite (FetchArtifacts_ok s src podName sizeLimit names _ _ Hk).
        congruence.
      * intros [H0|(kt & k & E' & [[Hkt _]|[Hkt _]])]; [lia| |];
          rewrite E in E'; injection E' as <- <-; contradiction.
    + (* job-addressed *)
      split; split.
      * rewrite (ListArtifacts_prow s src key E), value_bind.
        destruct (value (prowToGCS s key)) as [gcsKey e].
        rewrite ListArtifacts_from_ok. congruence.
      * intros [H0|(kt & k & E' & _ & Hkt)]; [lia|].
        rewrite E in E'. injection E' as <- <-. contradiction.
      * intros Herr. right. exists prowKeyType, key.
        split; [exact E|]. right. split; [reflexivity|].
        intros Hlen. apply length_two in Hlen. destruct Hlen as (j & b & Hs).
        pose proof (FetchArtifacts_keys_prow s src key j b E Hs) as Hk.
        rewrite (FetchArtifacts_ok s src podName sizeLimit names _ _ Hk)
          in Herr.
        contradiction.
      * intros [H0|(kt & k & E' & [[_ Hkt]|[_ Hlen]])]; [lia| |];
          rewrite E in E'; injection E' as <- <-; [contradiction|].
        rewrite (FetchArtifacts_early s src podName sizeLimit names _ _ _
                   (FetchArtifacts_keys_prow_bad s src key E Hlen)).
        discriminate.
    + (* unrecognised *)
      rewrite (ListArtifacts_unknown s src keyType key E Hg Hp).
      rewrite (FetchArtifacts_early s src podName sizeLimit names _ _ _
                 (FetchArtifacts_keys_unknown s src keyType key E Hg Hp)).
      split; (split; [|intros _; discriminate]); intros _; right;
        exists keyType, key; auto.
Qed.


(** *** The storage path of a storage-addressed reference *)

(** C5, amended: for a storage-addressed reference, [ListArtifacts] hands
    the key to the storage listing unchanged, and [FetchArtifacts] hands
    every storage request the key without one trailing separator, when it
    has one. *)
Theorem direct_reference_path s src key podName sizeLimit names :
  splitSrc src = (gcsKeyType, key, None) ->
  storagePaths (trace (List s src)) = [key] /\
  storagePaths (trace (Fetch s src podName sizeLimit names)) =
    repeat (TrimSuffix key) (List.length names) /\
  ((endsWithSep key = true /\
    key = (TrimSuffix key ++ String sep EmptyString)%string) \/
   (endsWithSep key = false /\ key = TrimSuffix key)).
Proof.
  intros E. split; [|split].
  - rewrite (ListArtifacts_gcs s src key E), ListArtifacts_from_trace.
    reflexivity.
  - destruct (FetchArtifacts_keys_gcs s src key E) as (j & b & Hk & _).
    apply (FetchArtifacts_spec s src podName sizeLimit names _ _ _ _ Hk).
  - apply TrimSuffix_spec.
Qed.

(** *** The pod-log fallback *)

Lemma logFailed_true s gcsKey sizeLimit names :
  In buildLog names ->
  probe s gcsKey sizeLimit buildLog = None ->
  logFailed s gcsKey sizeLimit names = true.
Proof.
  intros Hin Hp. unfold logFailed. apply existsb_exists.
  exists buildLog. split; [exact Hin|]. rewrite Hp. reflexivity.
Qed.

Lemma probed_others s gcsKey sizeLimit names :
  probe s gcsKey sizeLimit buildLog = None ->
  (forall name, In name names -> name <> buildLog ->
                probe s gcsKey sizeLimit name <> None) ->
  Forall2 (fun name art => probe s gcsKey sizeLimit name = Some art)
          (filter (fun name => negb (name =? buildLog)%string) names)
          (probed s gcsKey sizeLimit names).
Proof.
  intros Hlog. induction names as [|name rest IH]; intros Hothers.
  - constructor.
  - simpl. destruct (String.eqb_spec name buildLog) as [->|Hne]; simpl.
    + rewrite Hlog. apply IH. intros n Hn. apply Hothers. right. exact Hn.
    + destruct (probe s gcsKey sizeLimit name) as [art|] eqn:Ep.
      * constructor; [exact Ep|].
        apply IH. intros n Hn. apply Hothers. right. exact Hn.
      * exfalso. apply (Hothers name); [left; reflexivity | exact Hne | exact Ep].
Qed.

(** The job name and the build id of a source are read off the reference:
    no collaborator has a say in them. *)
Lemma FetchArtifacts_keys_locator s s' src
    gcsKey jobName buildID tr gcsKey' jobName' buildID' tr' :
  FetchKeys s src = (inl (gcsKey, jobName, buildID), tr) ->
  FetchKeys s' src = (inl (gcsKey', jobName', buildID'), tr') ->
  jobName' = jobName /\ buildID' = buildID.
Proof.
  unfold FetchArtifacts_keys.
  destruct (splitSrc src) as [[keyType key] [err|]]; [discriminate|].
  destruct (keyType =? gcsKeyType)%string.
  - destruct (_ <? 2)%nat; unfold ret; intros H H';
      injection H as _ <- <-; injection H' as _ <- <-; auto.
  - destruct (keyType =? prowKeyType)%string; [|discriminate].
    destruct (negb _); [discriminate|].
    unfold bind, ret.
    destruct (prowToGCS s key) as [[g e] t].
    destruct (prowToGCS s' key) as [[g' e'] t'].
    intros H H'. injection H as _ <- <- _. injection H' as _ <- <- _. auto.
Qed.

(** The last two of a list of segments that ends with a job name and a
    build id. *)
Lemma last_two (pre : list string) (jobName buildID : string) :
  (List.length (pre ++ [jobName; buildID]) <? 2)%nat = false /\
  nth (List.length (pre ++ [jobName; buildID]) - 2)
      (pre ++ [jobName; buildID]) EmptyString = jobName /\
  nth (List.length (pre ++ [jobName; buildID]) - 1)
      (pre ++ [jobName; buildID]) EmptyString = buildID.
Proof.
  rewrite length_app. simpl List.length. split; [|split].
  - apply Nat.ltb_ge. lia.
  - rewrite app_nth2 by lia.
    replace (List.length pre + 2 - 2 - List.length pre) with 0 by lia.
    reflexivity.
  - rewrite app_nth2 by lia.
    replace (List.length pre + 2 - 1 - List.length pre) with 1 by lia.
    reflexivity.
Qed.

(** The keys that the switch of [FetchArtifacts] computes, read off the
    reference: for a job-addressed reference the two parts of its key and
    the resolved path; for a storage-addressed one the trimmed key and its
    last two segments, or two empty strings when it has fewer than two. *)
Lemma FetchArtifacts_keys_derived s src keyType key gcsKey jobName buildID :
  splitSrc src = (keyType, key, None) ->
  (keyType = prowKeyType /\
   Split key = [jobName; buildID] /\
   gcsKey = fst (value (prowToGCS s key))) \/
  (keyType = gcsKeyType /\
   gcsKey = TrimSuffix key /\
   ((exists pre, Split (TrimSuffix key) = pre ++ [jobName; buildID]) \/
    (List.length (Split (TrimSuffix key)) < 2 /\
     jobName = EmptyString /\ buildID = EmptyString))) ->
  exists tr0, FetchKeys s src = (inl (gcsKey, jobName, buildID), tr0).
Proof.
  intros E [(-> & Hs & ->)|(-> & -> & [[pre Hs]|(Hlen & -> & ->)])].
  - exists (trace (prowToGCS s key)).
    apply FetchArtifacts_keys_prow; assumption.
  - exists []. unfold FetchArtifacts_keys. rewrite E, String.eqb_refl, Hs.
    destruct (last_two pre jobName buildID) as (-> & -> & ->). reflexivity.
  - exists []. unfold FetchArtifacts_keys. rewrite E, String.eqb_refl.
    destruct (Nat.ltb_spec (List.length (Split (TrimSuffix key))) 2);
      [reflexivity | lia].
Qed.

(** C6: when the step fails for ["build-log.txt"] and for no other
    requested name, the pod-log fetcher is called exactly once, with the
    job name and build id derived from the reference: the two parts of
    the key of a job-addressed reference, whatever path the job resolves
    to, and the last two segments of the trimmed key of a
    storage-addressed one (two empty strings when it has fewer than two
    segments).  The result holds the handles of all the other names, in
    request order, followed by the pod-log handle when the fallback
    succeeds and by nothing when it fails; no error is returned. *)
Theorem log_fallback s src keyType key podName sizeLimit names
    gcsKey jobName buildID :
  splitSrc src = (keyType, key, None) ->
  (keyType = prowKeyType /\
   Split key = [jobName; buildID] /\
   gcsKey = fst (value (prowToGCS s key))) \/
  (keyType = gcsKeyType /\
   gcsKey = TrimSuffix key /\
   ((exists pre, Split (TrimSuffix key) = pre ++ [jobName; buildID]) \/
    (List.length (Split (TrimSuffix key)) < 2 /\
     jobName = EmptyString /\ buildID = EmptyString))) ->
  In buildLog names ->
  probe s gcsKey sizeLimit buildLog = None ->
  (forall name, In name names -> name <> buildLog ->
                probe s gcsKey sizeLimit name <> None) ->
  exists others,
    Forall2 (fun name art => probe s gcsKey sizeLimit name = Some art)
            (filter (fun name => negb (name =? buildLog)%string) names)
            others /\
    podLogCalls (trace (Fetch s src podName sizeLimit names)) =
      [CallPodLog jobName buildID sizeLimit] /\
    value (Fetch s src podName sizeLimit names) =
      (others ++ match podLogArtifact s jobName buildID sizeLimit with
                 | inl art => [art]
                 | inr _ => []
                 end, None).
Proof.
  intros E Hderived Hin Hlog Hothers.
  destruct (FetchArtifacts_keys_derived s src keyType key _ _ _ E Hderived)
    as [tr0 Hk].
  exists (probed s gcsKey sizeLimit names).
  destruct (FetchArtifacts_spec s src podName sizeLimit names _ _ _ _ Hk)
    as (Hv & Hc & _).
  unfold fallback in Hv.
  rewrite (logFailed_true s gcsKey sizeLimit names Hin Hlog) in Hv, Hc.
  split; [|split]; [|exact Hc|exact Hv].
  apply probed_others; assumption.
Qed.

(** *** Dropping other artifacts *)

Lemma probed_remove s gcsKey sizeLimit name names :
  probe s gcsKey sizeLimit name = None ->
  probed s gcsKey sizeLimit (remove string_dec name names) =
  probed s gcsKey sizeLimit names.
Proof.
  intros Hp. induction names as [|n rest IH]; [reflexivity|].
  simpl. destruct (string_dec name n) as [<-|Hne].
  - rewrite Hp. exact IH.
  - simpl. rewrite IH. reflexivity.
Qed.

Lemma logFailed_remove s gcsKey sizeLimit name names :
  name <> buildLog ->
  logFailed s gcsKey sizeLimit (remove string_dec name names) =
  logFailed s gcsKey sizeLimit names.
Proof.
  intros Hne. unfold logFailed.
  induction names as [|n rest IH]; [reflexivity|].
  simpl. destruct (string_dec name n) as [<-|Hn].
  - destruct (String.eqb_spec name buildLog); [contradiction|]. exact IH.
  - simpl. rewrite IH. reflexivity.
Qed.

(** C7: when the step fails for a requested name other than
    ["build-log.txt"], the call returns what it returns when that name is
    not requested at all, and calls the pod-log fetcher exactly as it does
    then: the name contributes no handle, triggers no fallback and leaves
    the other handles as they are. *)
Theorem other_failure_dropped s src podName sizeLimit names name
    gcsKey jobName buildID tr0 :
  FetchKeys s src = (inl (gcsKey, jobName, buildID), tr0) ->
  In name names ->
  name <> buildLog ->
  probe s gcsKey sizeLimit name = None ->
  value (Fetch s src podName sizeLimit names) =
    value (Fetch s src podName sizeLimit (remove string_dec name names)) /\
  podLogCalls (trace (Fetch s src podName sizeLimit names)) =
    podLogCalls
      (trace (Fetch s src podName sizeLimit (remove string_dec name names))).
Proof.
  intros Hk _ Hne Hp.
  destruct (FetchArtifacts_spec s src podName sizeLimit names _ _ _ _ Hk)
    as (-> & -> & _).
  destruct (FetchArtifacts_spec s src podName sizeLimit
              (remove string_dec name names) _ _ _ _ Hk) as (-> & -> & _).
  unfold fallback.
  rewrite (probed_remove s gcsKey sizeLimit name names Hp).
  rewrite (logFailed_remove s gcsKey sizeLimit name names Hne).
  split; reflexivity.
Qed.

(** *** Unresolved jobs *)

Lemma prowToGCS_unresolved s prowKey jobName buildID :
  Split prowKey = [jobName; buildID] ->
  (exists err, GetProwJob s jobName buildID = inr err) \/
  (exists job, GetProwJob s jobName buildID = inl job /\
     forall suffix,
       URL (Status job) <> (JobURLPrefix (plank (config s)) ++ suffix)%string) ->
  exists err, value (prowToGCS s prowKey) = (EmptyString, Some err).
Proof.
  intros Hsplit [[err Herr]|(job & Hjob & Hno)].
  - unfold prowToGCS. rewrite Hsplit. simpl. unfold bind, call.
    rewrite Herr. eexists. reflexivity.
  - rewrite (prowToGCS_found s prowKey jobName buildID job Hsplit Hjob).
    unfold value. simpl.
    destruct (HasPrefix _ _) eqn:E.
    + apply HasPrefix_inv in E. destruct E as [suffix E].
      exfalso. exact (Hno suffix E).
    + eexists. reflexivity.
Qed.

(** C8: for a job-addressed reference whose key has two parts and whose
    resolution fails, by a failed lookup or by a status URL without the
    configured prefix, both entry points go on with the empty storage
    path: the listing and every handle request receive it, no error is
    returned, and the fetch result is made of the handles whose step
    succeeds there and of the fallback. *)
Theorem unresolved_job_degrades s src key jobName buildID
    podName sizeLimit names :
  splitSrc src = (prowKeyType, key, None) ->
  Split key = [jobName; buildID] ->
  (exists err, GetProwJob s jobName buildID = inr err) \/
  (exists job, GetProwJob s jobName buildID = inl job /\
     forall suffix,
       URL (Status job) <> (JobURLPrefix (plank (config s)) ++ suffix)%string) ->
  snd (value (List s src)) = None /\
  storagePaths (trace (List s src)) = [EmptyString] /\
  value (Fetch s src podName sizeLimit names) =
    (probed s EmptyString sizeLimit names ++
       fallback s EmptyString jobName buildID sizeLimit names, None) /\
  storagePaths (trace (Fetch s src podName sizeLimit names)) =
    repeat EmptyString (List.length names).
Proof.
  intros E Hsplit Hfail.
  destruct (prowToGCS_unresolved s key jobName buildID Hsplit Hfail)
    as [err Hv].
  pose proof (FetchArtifacts_keys_prow s src key jobName buildID E Hsplit)
    as Hk.
  rewrite Hv in Hk. simpl fst in Hk.
  destruct (FetchArtifacts_spec s src podName sizeLimit names _ _ _ _ Hk)
    as (Hfv & _ & Hfs).
  rewrite (ListArtifacts_prow s src key E), value_bind, trace_bind, Hv.
  rewrite ListArtifacts_from_ok, storagePaths_app, ListArtifacts_from_trace.
  rewrite (proj2 (prowToGCS_trace s key)).
  repeat split; assumption || reflexivity.
Qed.

(** *** Short storage keys *)

(** C10: for a storage-addressed reference whose trimmed key has fewer
    than two segments, [FetchArtifacts] returns no error, and when the
    step of a requested ["build-log.txt"] fails it calls the pod-log
    fetcher once, with an empty job name and an empty build id. *)
Theorem short_direct_key s src key podName sizeLimit names :
  splitSrc src = (gcsKeyType, key, None) ->
  List.length (Split (TrimSuffix key)) < 2 ->
  snd (value (Fetch s src podName sizeLimit names)) = None /\
  (In buildLog names ->
   probe s (TrimSuffix key) sizeLimit buildLog = None ->
   podLogCalls (trace (Fetch s src podName sizeLimit names)) =
     [CallPodLog EmptyString EmptyString sizeLimit]).
Proof.
  intros E Hlen.
  destruct (FetchArtifacts_keys_gcs s src key E)
    as (j & b & Hk & [(_ & -> & ->)|(Hge & _)]); [|cbv zeta in Hge; lia].
  destruct (FetchArtifacts_spec s src podName sizeLimit names _ _ _ _ Hk)
    as (Hv & Hc & _).
  split.
  - rewrite Hv. reflexivity.
  - intros Hin Hp. rewrite Hc.
    rewrite (logFailed_true s (TrimSuffix key) sizeLimit names Hin Hp).
    reflexivity.
Qed.


(** ** Further properties *)

(** *** The parser and the resolver *)

(** X1: a key type without a separator, a separator and any key, which
    may itself contain separators, parse back into that key type and that
    key: the reference is cut at its first separator only. *)
Theorem splitSrc_join (keyType key : string) :
  countSep keyType = 0 ->
  splitSrc (keyType ++ String sep key) = (keyType, key, None).
Proof.
  intros H. unfold splitSrc, SplitN2.
  rewrite (proj2 (Cut_Some (keyType ++ String sep key) keyType key)
             (conj eq_refl H)).
  reflexivity.
Qed.

(** X2: the resolver succeeds with a path exactly when the job key has
    two parts, the job is found, and the job's status URL is the
    configured prefix followed by that path. *)
Theorem prowToGCS_success_iff s prowKey path :
  value (prowToGCS s prowKey) = (path, None) <->
  exists jobName buildID job,
    Split prowKey = [jobName; buildID] /\
    GetProwJob s jobName buildID = inl job /\
    URL (Status job) = (JobURLPrefix (plank (config s)) ++ path)%string.
Proof.
  split.
  - destruct (Nat.eq_dec (List.length (Split prowKey)) 2) as [Hlen|Hlen].
    + destruct (length_two _ Hlen) as (jobName & buildID & Hsplit).
      destruct (GetProwJob s jobName buildID) as [job|cause] eqn:Hjob.
      * rewrite (prowToGCS_found s prowKey jobName buildID job Hsplit Hjob).
        unfold value. simpl.
        destruct (HasPrefix _ _) eqn:E; [|discriminate].
        intros H. injection H as <-.
        exists jobName, buildID, job. repeat split; try assumption.
        apply HasPrefix_inv in E. destruct E as [suffix E].
        rewrite E at 1. rewrite E, sliceFrom_app. reflexivity.
      * unfold prowToGCS. rewrite Hsplit. simpl. unfold bind, call.
        rewrite Hjob. discriminate.
    + unfold prowToGCS.
      destruct (Nat.eqb_spec (List.length (Split prowKey)) 2);
        [contradiction | discriminate].
  - intros (jobName & buildID & job & Hsplit & Hjob & Hurl).
    rewrite (prowToGCS_found s prowKey jobName buildID job Hsplit Hjob).
    unfold value. simpl.
    rewrite Hurl, HasPrefix_app, sliceFrom_app. reflexivity.
Qed.

(** X3: when the resolver fails it returns the empty path, and the error
    tells which of three things went wrong: a key that does not have two
    parts, for which the job agent is not consulted; a failed lookup,
    whose cause is kept in the error; or a status URL without the
    configured prefix.  In the last two cases the job agent was consulted
    once, with the two parts of the key. *)
Theorem prowToGCS_failure s prowKey path err :
  value (prowToGCS s prowKey) = (path, Some err) ->
  path = EmptyString /\
  ((List.length (Split prowKey) <> 2 /\
    err = ProwSrcIncorrectlyFormatted prowKey /\
    trace (prowToGCS s prowKey) = []) \/
   (exists jobName buildID,
      Split prowKey = [jobName; buildID] /\
      trace (prowToGCS s prowKey) = [CallGetProwJob jobName buildID] /\
      ((exists cause,
          GetProwJob s jobName buildID = inr cause /\
          err = FailedToGetProwJob prowKey cause) \/
       (exists job,
          GetProwJob s jobName buildID = inl job /\
          HasPrefix (URL (Status job)) (JobURLPrefix (plank (config s)))
            = false /\
          err = UnexpectedJobURL (URL (Status job))
                                 (JobURLPrefix (plank (config s))))))).
Proof.
  destruct (Nat.eq_dec (List.length (Split prowKey)) 2) as [Hlen|Hlen].
  - destruct (length_two _ Hlen) as (jobName & buildID & Hsplit).
    destruct (GetProwJob s jobName buildID) as [job|cause] eqn:Hjob.
    + rewrite (prowToGCS_found s prowKey jobName buildID job Hsplit Hjob).
      unfold value, trace. simpl.
      destruct (HasPrefix _ _) eqn:E; [discriminate|].
      intros H. injection H as <- <-. split; [reflexivity|].
      right. exists jobName, buildID.
      split; [exact Hsplit | split; [reflexivity|]].
      right. exists job. auto.
    + unfold prowToGCS. rewrite Hsplit. simpl. unfold bind, call, value, trace.
      rewrite Hjob. simpl.
      intros H. injection H as <- <-. split; [reflexivity|].
      right. exists jobName, buildID.
      split; [reflexivity | split; [reflexivity|]].
      left. exists cause. auto.
  - unfold prowToGCS.
    destruct (Nat.eqb_spec (List.length (Split prowKey)) 2); [contradiction|].
    unfold value, trace, ret. simpl.
    intros H. injection H as <- <-. split; [reflexivity|].
    left. auto.
Qed.


(** *** Listing *)

(** X4: a successful listing call asks the storage listing exactly once,
    and returns the names that it listed unchanged and in order: as they
    are when the listing succeeded and names the log, and followed by the
    log name in every other case. *)
Theorem ListArtifacts_keeps_listing s src names tr :
  List s src = (names, None, tr) ->
  exists gcsKey,
    storagePaths tr = [gcsKey] /\
    ((names = fst (gcsArtifacts s gcsKey) /\
      snd (gcsArtifacts s gcsKey) = None /\
      In buildLog (fst (gcsArtifacts s gcsKey))) \/
     (names = fst (gcsArtifacts s gcsKey) ++ [buildLog] /\
      (snd (gcsArtifacts s gcsKey) <> None \/
       ~ In buildLog (fst (gcsArtifacts s gcsKey))))).
Proof.
  assert (Hfrom : forall gcsKey,
    (value (ListArtifacts_from s gcsKey) =
       (fst (gcsArtifacts s gcsKey), None) /\
     snd (gcsArtifacts s gcsKey) = None /\
     In buildLog (fst (gcsArtifacts s gcsKey))) \/
    (value (ListArtifacts_from s gcsKey) =
       (fst (gcsArtifacts s gcsKey) ++ [buildLog], None) /\
     (snd (gcsArtifacts s gcsKey) <> None \/
      ~ In buildLog (fst (gcsArtifacts s gcsKey))))).
  { intros gcsKey. unfold ListArtifacts_from, bind, call, ret, value.
    destruct (gcsArtifacts s gcsKey) as [listed [e|]]; simpl.
    - right. split; [reflexivity|]. left. discriminate.
    - destruct (existsb _ listed) eqn:E; simpl.
      + left. repeat split. apply existsb_buildLog, E.
      + right. split; [reflexivity|]. right.
        intros Hin. apply existsb_buildLog in Hin. congruence. }
  unfold ListArtifacts.
  destruct (splitSrc src) as [[keyType key] [err|]]; [discriminate|].
  destruct (keyType =? gcsKeyType)%string.
  - intros H. exists key.
    pose proof (ListArtifacts_from_trace s key) as Ht.
    rewrite H in Ht. unfold trace in Ht. simpl in Ht. subst tr.
    split; [reflexivity|].
    specialize (Hfrom key). rewrite H in Hfrom. unfold value in Hfrom.
    simpl in Hfrom.
    destruct Hfrom as [(Hv & Hrest)|(Hv & Hrest)]; injection Hv as ->; auto.
  - destruct (keyType =? prowKeyType)%string; [|discriminate].
    intros H.
    assert (Hv : value ('(gcsKey, _) <- prowToGCS s key ;;
                        ListArtifacts_from s gcsKey) = (names, None))
      by (rewrite H; reflexivity).
    assert (Ht : trace ('(gcsKey, _) <- prowToGCS s key ;;
                        ListArtifacts_from s gcsKey) = tr)
      by (rewrite H; reflexivity).
    rewrite value_bind in Hv. rewrite trace_bind in Ht.
    destruct (value (prowToGCS s key)) as [gcsKey e].
    exists gcsKey. split.
    + rewrite <- Ht, storagePaths_app, (proj2 (prowToGCS_trace s key)).
      rewrite ListArtifacts_from_trace. reflexivity.
    + specialize (Hfrom gcsKey). rewrite Hv in Hfrom.
      destruct Hfrom as [(Hn & Hrest)|(Hn & Hrest)]; injection Hn as ->; auto.
Qed.

(** X5: whenever an entry point returns an error, of any kind, it has
    called no collaborator and returns no artifact. *)
Theorem errors_before_any_call s src podName sizeLimit names :
  (snd (value (List s src)) <> None ->
   fst (value (List s src)) = [] /\ trace (List s src) = []) /\
  (snd (value (Fetch s src podName sizeLimit names)) <> None ->
   fst (value (Fetch s src podName sizeLimit names)) = [] /\
   trace (Fetch s src podName sizeLimit names) = []).
Proof.
  split.
  - unfold ListArtifacts.
    destruct (splitSrc src) as [[keyType key] [err|]]; [split; reflexivity|].
    destruct (keyType =? gcsKeyType)%string.
    + rewrite ListArtifacts_from_ok. intros H. contradiction.
    + destruct (keyType =? prowKeyType)%string; [|split; reflexivity].
      rewrite value_bind. destruct (value (prowToGCS s key)) as [gcsKey e].
      rewrite ListArtifacts_from_ok. intros H. contradiction.
  - destruct (FetchKeys s src) as [[keys|[arts err]] tr0] eqn:Hk.
    + rewrite (FetchArtifacts_ok s src podName sizeLimit names _ _ Hk).
      intros H. contradiction.
    + rewrite (FetchArtifacts_early s src podName sizeLimit names _ _ _ Hk).
      intros _. simpl. revert Hk. unfold FetchArtifacts_keys.
      destruct (splitSrc src) as [[keyType key] [e|]].
      * unfold ret. intros H. injection H as <- _ <-. split; reflexivity.
      * destruct (keyType =? gcsKeyType)%string.
        -- destruct (_ <? 2)%nat; discriminate.
        -- destruct (keyType =? prowKeyType)%string.
           ++ destruct (negb _).
              ** unfold ret. intros H. injection H as <- _ <-.
                 split; reflexivity.
              ** unfold bind, ret.
                 destruct (prowToGCS s key) as [[g e] t]. discriminate.
           ++ unfold ret. intros H. injection H as <- _ <-.
              split; reflexivity.
Qed.

(** X6: a job-addressed reference whose key does not have exactly two
    parts is treated differently by the two entry points: the listing
    goes on without consulting the job agent, lists the empty path and
    succeeds, while the fetch returns an error at once. *)
Theorem malformed_job_key s src key podName sizeLimit names :
  splitSrc src = (prowKeyType, key, None) ->
  List.length (Split key) <> 2 ->
  List s src = ListArtifacts_from s EmptyString /\
  trace (List s src) = [CallArtifacts EmptyString] /\
  snd (value (List s src)) = None /\
  Fetch s src podName sizeLimit names =
    ([], Some (KeyIncorrectlyFormatted key), []).
Proof.
  intros E Hlen.
  assert (HL : List s src = ListArtifacts_from s EmptyString).
  { rewrite (ListArtifacts_prow s src key E). unfold prowToGCS.
    destruct (Nat.eqb_spec (List.length (Split key)) 2); [contradiction|].
    simpl. unfold bind, ret.
    destruct (ListArtifacts_from s EmptyString) as [r t]. reflexivity. }
  split; [exact HL|]. rewrite HL.
  split; [apply ListArtifacts_from_trace|].
  split; [apply ListArtifacts_from_ok|].
  apply FetchArtifacts_early.
  apply FetchArtifacts_keys_prow_bad; assumption.
Qed.

(** X7: listing a job-addressed reference whose job resolves to a path
    gives the same names as listing the storage-addressed reference of
    that path. *)
Theorem job_listing_is_direct_listing s src key path :
  countSep gcsKeyType = 0 ->
  splitSrc src = (prowKeyType, key, None) ->
  value (prowToGCS s key) = (path, None) ->
  value (List s src) = value (List s (gcsKeyType ++ String sep path)).
Proof.
  intros Hg E Hres.
  rewrite (ListArtifacts_prow s src key E), value_bind, Hres.
  rewrite (ListArtifacts_gcs s (gcsKeyType ++ String sep path) path).
  - reflexivity.
  - apply splitSrc_ok. split; [reflexivity | exact Hg].
Qed.


(** *** Fetching *)

Lemma logFailed_iff s gcsKey sizeLimit names :
  logFailed s gcsKey sizeLimit names = true <->
  In buildLog names /\ probe s gcsKey sizeLimit buildLog = None.
Proof.
  split.
  - unfold logFailed. intros H. apply existsb_exists in H.
    destruct H as (name & Hin & H). apply andb_prop in H.
    destruct H as [Heq Hp]. apply String.eqb_eq in Heq. subst name.
    split; [exact Hin|].
    destruct (probe s gcsKey sizeLimit buildLog); [discriminate | reflexivity].
  - intros [Hin Hp]. apply logFailed_true; assumption.
Qed.

Lemma In_probed s gcsKey sizeLimit names art :
  In art (probed s gcsKey sizeLimit names) <->
  exists name, In name names /\ probe s gcsKey sizeLimit name = Some art.
Proof.
  induction names as [|n rest IH]; simpl.
  - split; [contradiction | intros (name & [] & _)].
  - destruct (probe s gcsKey sizeLimit n) as [a|] eqn:Ep; simpl; rewrite IH.
    + split.
      * intros [<-|(name & Hin & Hp)].
        -- exists n. auto.
        -- exists name. auto.
      * intros (name & [<-|Hin] & Hp).
        -- left. congruence.
        -- right. exists name. auto.
    + split.
      * intros (name & Hin & Hp). exists name. auto.
      * intros (name & [<-|Hin] & Hp); [congruence|].
        exists name. auto.
Qed.

Lemma probed_length s gcsKey sizeLimit names :
  List.length (probed s gcsKey sizeLimit names) +
    (if logFailed s gcsKey sizeLimit names then 1 else 0)
  <= List.length names.
Proof.
  unfold logFailed. induction names as [|n rest IH]; simpl; [lia|].
  destruct (probe s gcsKey sizeLimit n) as [a|]; simpl.
  - rewrite andb_false_r. simpl. lia.
  - destruct (existsb _ rest); destruct (n =? buildLog)%string; simpl in *; lia.
Qed.

Lemma FetchArtifacts_keys_early s src arts err tr0 :
  FetchKeys s src = (inr (arts, err), tr0) -> arts = [] /\ tr0 = [].
Proof.
  unfold FetchArtifacts_keys.
  destruct (splitSrc src) as [[keyType key] [e|]].
  - unfold ret. intros H. injection H as <- _ <-. split; reflexivity.
  - destruct (keyType =? gcsKeyType)%string.
    + destruct (_ <? 2)%nat; discriminate.
    + destruct (keyType =? prowKeyType)%string.
      * destruct (negb _).
        -- unfold ret. intros H. injection H as <- _ <-. split; reflexivity.
        -- unfold bind, ret. destruct (prowToGCS s key) as [[g e] t].
           discriminate.
      * unfold ret. intros H. injection H as <- _ <-. split; reflexivity.
Qed.

(** X8: a fetch never returns more handles than names were requested,
    the pod-log handle included. *)
Theorem FetchArtifacts_length s src podName sizeLimit names :
  List.length (fst (value (Fetch s src podName sizeLimit names)))
  <= List.length names.
Proof.
  destruct (FetchKeys s src) as [[[[gcsKey jobName] buildID]|[arts err]] tr0]
    eqn:Hk.
  - destruct (FetchArtifacts_spec s src podName sizeLimit names _ _ _ _ Hk)
      as (-> & _).
    simpl. rewrite length_app.
    pose proof (probed_length s gcsKey sizeLimit names) as L.
    unfold fallback.
    destruct (logFailed s gcsKey sizeLimit names);
      [destruct (podLogArtifact s jobName buildID sizeLimit)|];
      simpl in *; lia.
  - rewrite (FetchArtifacts_early s src podName sizeLimit names _ _ _ Hk).
    destruct (FetchArtifacts_keys_early s src _ _ _ Hk) as [-> _].
    simpl. lia.
Qed.

(** X9: the handles of a fetch are exactly the storage handles of the
    requested names whose step succeeds, together with the pod-log handle
    when the step of a requested log fails and the pod-log fetcher
    answers. *)
Theorem FetchArtifacts_members s src podName sizeLimit names
    gcsKey jobName buildID tr0 art :
  FetchKeys s src = (inl (gcsKey, jobName, buildID), tr0) ->
  (In art (fst (value (Fetch s src podName sizeLimit names))) <->
   (exists name, In name names /\ probe s gcsKey sizeLimit name = Some art) \/
   (In buildLog names /\
    probe s gcsKey sizeLimit buildLog = None /\
    podLogArtifact s jobName buildID sizeLimit = inl art)).
Proof.
  intros Hk.
  destruct (FetchArtifacts_spec s src podName sizeLimit names _ _ _ _ Hk)
    as (-> & _).
  simpl. rewrite in_app_iff, In_probed. unfold fallback.
  destruct (logFailed s gcsKey sizeLimit names) eqn:El.
  - apply logFailed_iff in El. destruct El as [Hin Hp].
    destruct (podLogArtifact s jobName buildID sizeLimit) as [a|e]; simpl.
    + split.
      * intros [H|[<-|[]]]; [left; exact H | right; auto].
      * intros [H|(_ & _ & H)]; [left; exact H | right; left; congruence].
    + split.
      * intros [H|[]]. left. exact H.
      * intros [H|(_ & _ & H)]; [left; exact H | discriminate].
  - simpl. split.
    + intros [H|[]]. left. exact H.
    + intros [H|(Hin & Hp & _)]; [left; exact H|].
      rewrite (logFailed_true s gcsKey sizeLimit names Hin Hp) in El.
      discriminate.
Qed.

(** X10: whatever the reference and the answers of the collaborators, a
    fetch calls the pod-log fetcher at most once, and it calls it exactly
    when the reference is accepted, the log is among the requested names
    and its step fails. *)
Theorem podLog_called_iff s src podName sizeLimit names :
  List.length (podLogCalls (trace (Fetch s src podName sizeLimit names))) <= 1
  /\
  (podLogCalls (trace (Fetch s src podName sizeLimit names)) <> [] <->
   exists gcsKey jobName buildID tr0,
     FetchKeys s src = (inl (gcsKey, jobName, buildID), tr0) /\
     In buildLog names /\
     probe s gcsKey sizeLimit buildLog = None).
Proof.
  destruct (FetchKeys s src) as [[[[gcsKey jobName] buildID]|[arts err]] tr0]
    eqn:Hk.
  - destruct (FetchArtifacts_spec s src podName sizeLimit names _ _ _ _ Hk)
      as (_ & -> & _).
    destruct (logFailed s gcsKey sizeLimit names) eqn:El.
    + apply logFailed_iff in El. split; [simpl; lia|].
      split; [|discriminate].
      intros _. exists gcsKey, jobName, buildID, tr0. tauto.
    + split; [simpl; lia|]. split; [intros H; contradiction|].
      intros (g & j & b & t & H & Hin & Hp). injection H as <- _ _ _.
      rewrite (logFailed_true s gcsKey sizeLimit names Hin Hp) in El.
      discriminate.
  - rewrite (FetchArtifacts_early s src podName sizeLimit names _ _ _ Hk).
    destruct (FetchArtifacts_keys_early s src _ _ _ Hk) as [_ ->].
    unfold trace. simpl. split; [lia|].
    split; [intros H; contradiction|].
    intros (g & j & b & t & H & _). discriminate.
Qed.

(** X11: when the step of every requested name succeeds, the result holds
    one storage handle per requested name, in request order, and the
    pod-log fetcher is not called. *)
Theorem all_present s src podName sizeLimit names gcsKey jobName buildID tr0 :
  FetchKeys s src = (inl (gcsKey, jobName, buildID), tr0) ->
  (forall name, In name names -> probe s gcsKey sizeLimit name <> None) ->
  Forall2 (fun name art => probe s gcsKey sizeLimit name = Some art)
          names (fst (value (Fetch s src podName sizeLimit names))) /\
  snd (value (Fetch s src podName sizeLimit names)) = None /\
  podLogCalls (trace (Fetch s src podName sizeLimit names)) = [].
Proof.
  intros Hk Hall.
  destruct (FetchArtifacts_spec s src podName sizeLimit names _ _ _ _ Hk)
    as (-> & -> & _).
  unfold fallback.
  assert (El : logFailed s gcsKey sizeLimit names = false).
  { destruct (logFailed s gcsKey sizeLimit names) eqn:El; [|reflexivity].
    apply logFailed_iff in El. destruct El as [Hin Hp].
    exfalso. exact (Hall buildLog Hin Hp). }
  rewrite El. simpl. rewrite app_nil_r. repeat split.
  clear El Hk. induction names as [|n rest IH]; simpl; [constructor|].
  destruct (probe s gcsKey sizeLimit n) as [a|] eqn:Ep.
  - constructor; [exact Ep|]. apply IH. intros name Hin. apply Hall.
    right. exact Hin.
  - exfalso. apply (Hall n); [left; reflexivity | exact Ep].
Qed.


(** *** The job name and build id of a storage-addressed reference *)

Lemma run_path_trim (dir jobName buildID trail : string) :
  countSep buildID = 0 -> buildID <> EmptyString ->
  trail = EmptyString \/ trail = String sep EmptyString ->
  TrimSuffix (dir ++ jobName ++ String sep (buildID ++ trail)) =
  (dir ++ jobName ++ String sep buildID)%string.
Proof.
  intros Hb Hne [->| ->].
  - rewrite string_app_nil_r. apply TrimSuffix_id.
    rewrite endsWithSep_app by (destruct jobName; discriminate).
    rewrite endsWithSep_app by discriminate.
    destruct buildID as [|c rest]; [contradiction|].
    change (endsWithSep (String sep (String c rest)))
      with (endsWithSep (String c rest)).
    apply endsWithSep_no_sep, Hb.
  - replace (dir ++ jobName ++ String sep (buildID ++ String sep EmptyString))%string
      with ((dir ++ jobName ++ String sep buildID) ++ String sep EmptyString)%string.
    + apply TrimSuffix_app_sep.
    + rewrite !string_app_assoc. reflexivity.
Qed.

Lemma run_path_split (dir jobName buildID : string) :
  countSep jobName = 0 -> countSep buildID = 0 ->
  dir = EmptyString \/ (exists base, dir = (base ++ String sep EmptyString)%string) ->
  exists pre,
    Split (dir ++ jobName ++ String sep buildID) = pre ++ [jobName; buildID].
Proof.
  intros Hj Hb [->|[base ->]].
  - exists []. simpl. apply Split_two; assumption.
  - exists (Split base).
    rewrite string_app_assoc. simpl.
    rewrite Split_around, Split_two by assumption. reflexivity.
Qed.

Lemma FetchArtifacts_keys_run s src dir jobName buildID trail :
  countSep jobName = 0 -> countSep buildID = 0 -> buildID <> EmptyString ->
  dir = EmptyString \/ (exists base, dir = (base ++ String sep EmptyString)%string) ->
  trail = EmptyString \/ trail = String sep EmptyString ->
  splitSrc src =
    (gcsKeyType, (dir ++ jobName ++ String sep (buildID ++ trail))%string, None) ->
  FetchKeys s src =
    (inl ((dir ++ jobName ++ String sep buildID)%string, jobName, buildID), []).
Proof.
  intros Hj Hb Hne Hdir Htrail E.
  unfold FetchArtifacts_keys. rewrite E, String.eqb_refl.
  rewrite (run_path_trim dir jobName buildID trail Hb Hne Htrail).
  destruct (run_path_split dir jobName buildID Hj Hb Hdir) as [pre ->].
  destruct (last_two pre jobName buildID) as (-> & -> & ->).
  reflexivity.
Qed.

(** X12: for a storage-addressed reference whose key ends in
    [jobName/buildID], where the job name and the build id contain no
    separator and the build id is not empty, with or without one trailing
    separator, the fetch reads its handles from the key without the
    trailing separator and, if it needs the pod log, asks for it with
    that job name and that build id. *)
Theorem direct_run_fetch s src dir jobName buildID trail
    podName sizeLimit names :
  countSep jobName = 0 -> countSep buildID = 0 -> buildID <> EmptyString ->
  dir = EmptyString \/ (exists base, dir = (base ++ String sep EmptyString)%string) ->
  trail = EmptyString \/ trail = String sep EmptyString ->
  splitSrc src =
    (gcsKeyType, (dir ++ jobName ++ String sep (buildID ++ trail))%string, None) ->
  let path := (dir ++ jobName ++ String sep buildID)%string in
  value (Fetch s src podName sizeLimit names) =
    (probed s path sizeLimit names ++
       fallback s path jobName buildID sizeLimit names, None) /\
  storagePaths (trace (Fetch s src podName sizeLimit names)) =
    repeat path (List.length names) /\
  podLogCalls (trace (Fetch s src podName sizeLimit names)) =
    (if logFailed s path sizeLimit names
     then [CallPodLog jobName buildID sizeLimit] else []).
Proof.
  intros Hj Hb Hne Hdir Htrail E path.
  pose proof (FetchArtifacts_keys_run s src dir jobName buildID trail
                Hj Hb Hne Hdir Htrail E) as Hk.
  destruct (FetchArtifacts_spec s src podName sizeLimit names _ _ _ _ Hk)
    as (Hv & Hc & Hs).
  repeat split; assumption.
Qed.

(** X13: when the storage key type contains no separator, a job-addressed
    reference [jobName/buildID] with a non-empty build id whose job
    resolves to a storage path ending in [jobName/buildID] is fetched
    exactly like the storage-addressed reference of that path: the same
    handles, the same fallback. *)
Theorem job_fetch_is_direct_fetch s src key dir jobName buildID
    podName sizeLimit names :
  countSep gcsKeyType = 0 ->
  splitSrc src = (prowKeyType, key, None) ->
  Split key = [jobName; buildID] ->
  buildID <> EmptyString ->
  dir = EmptyString \/ (exists base, dir = (base ++ String sep EmptyString)%string) ->
  value (prowToGCS s key) = ((dir ++ jobName ++ String sep buildID)%string, None) ->
  value (Fetch s src podName sizeLimit names) =
  value (Fetch s (gcsKeyType ++ String sep (dir ++ jobName ++ String sep buildID))
               podName sizeLimit names).
Proof.
  intros Hg E Hsplit Hne Hdir Hres.
  pose proof (Split_pieces key) as Hp. rewrite Hsplit in Hp.
  inversion Hp as [|? ? Hj Hp']; subst. inversion Hp' as [|? ? Hb _]; subst.
  pose proof (FetchArtifacts_keys_prow s src key jobName buildID E Hsplit) as Hk.
  rewrite Hres in Hk. simpl fst in Hk.
  assert (Hk' : FetchKeys s (gcsKeyType ++
                  String sep (dir ++ jobName ++ String sep buildID)) =
                (inl ((dir ++ jobName ++ String sep buildID)%string,
                      jobName, buildID), [])).
  { apply (FetchArtifacts_keys_run s _ dir jobName buildID EmptyString);
      try assumption.
    - left. reflexivity.
    - rewrite string_app_nil_r. apply splitSrc_ok.
      split; [reflexivity | exact Hg]. }
  destruct (FetchArtifacts_spec s src podName sizeLimit names _ _ _ _ Hk)
    as (-> & _).
  destruct (FetchArtifacts_spec s _ podName sizeLimit names _ _ _ _ Hk')
    as (-> & _).
  reflexivity.
Qed.

(** *** The order of the calls *)

Lemma handleRequests_app (t1 t2 : list (Call Artifact)) :
  handleRequests (t1 ++ t2) = handleRequests t1 ++ handleRequests t2.
Proof.
  induction t1 as [|c t1 IH]; [reflexivity|].
  destruct c; simpl; rewrite IH; reflexivity.
Qed.

Lemma sizeProbes_app (t1 t2 : list (Call Artifact)) :
  sizeProbes (t1 ++ t2) = sizeProbes t1 ++ sizeProbes t2.
Proof.
  induction t1 as [|c t1 IH]; [reflexivity|].
  destruct c; simpl; rewrite IH; reflexivity.
Qed.

Lemma FetchArtifacts_loop_calls s gcsKey sizeLimit names :
  forall arts need,
    handleRequests
      (trace (FetchArtifacts_loop s gcsKey sizeLimit names arts need)) = names
    /\
    sizeProbes
      (trace (FetchArtifacts_loop s gcsKey sizeLimit names arts need)) =
      obtained s gcsKey sizeLimit names.
Proof.
  induction names as [|name rest IH]; intros arts need; [split; reflexivity|].
  rewrite FetchArtifacts_loop_cons. cbv zeta. unfold trace at 1 3. simpl snd.
  change (?c :: ?l ++ ?t) with ((c :: l) ++ t).
  rewrite handleRequests_app, sizeProbes_app.
  match goal with
  | |- context [trace (FetchArtifacts_loop s gcsKey sizeLimit rest ?a ?n)] =>
      destruct (IH a n) as [-> ->]
  end.
  simpl. destruct (gcsArtifact s gcsKey name sizeLimit); split; reflexivity.
Qed.

Lemma FetchArtifacts_trace s src podName sizeLimit names
    gcsKey jobName buildID tr0 :
  FetchKeys s src = (inl (gcsKey, jobName, buildID), tr0) ->
  trace (Fetch s src podName sizeLimit names) =
    tr0 ++
    trace (FetchArtifacts_loop s gcsKey sizeLimit names [] false) ++
    (if logFailed s gcsKey sizeLimit names
     then [CallPodLog jobName buildID sizeLimit] else []).
Proof.
  intros Hk. unfold FetchArtifacts. rewrite trace_bind.
  assert (Hv : value (FetchKeys s src) = inl (gcsKey, jobName, buildID))
    by (rewrite Hk; reflexivity).
  assert (Ht : trace (FetchKeys s src) = tr0) by (rewrite Hk; reflexivity).
  rewrite Hv, Ht, trace_bind, FetchArtifacts_loop_value. simpl orb.
  destruct (logFailed s gcsKey sizeLimit names).
  - unfold bind, call, ret, trace. simpl.
    destruct (podLogArtifact s jobName buildID sizeLimit); reflexivity.
  - reflexivity.
Qed.

Lemma FetchArtifacts_keys_lookups s src :
  handleRequests (trace (FetchKeys s src)) = [] /\
  sizeProbes (trace (FetchKeys s src)) = [].
Proof.
  unfold FetchArtifacts_keys.
  destruct (splitSrc src) as [[keyType key] [err|]]; [split; reflexivity|].
  destruct (keyType =? gcsKeyType)%string.
  - destruct (_ <? 2)%nat; split; reflexivity.
  - destruct (keyType =? prowKeyType)%string; [|split; reflexivity].
    destruct (negb _); [split; reflexivity|].
    rewrite trace_bind.
    destruct (value (prowToGCS s key)) as [gcsKey e].
    rewrite handleRequests_app, sizeProbes_app.
    unfold prowToGCS. destruct (negb _); [split; reflexivity|].
    unfold bind, call, ret, trace.
    destruct (GetProwJob s _ _) as [job|e']; [|split; reflexivity].
    destruct (negb _); split; reflexivity.
Qed.

(** X14: for an accepted reference, a fetch requests a storage handle for
    every requested name, once each and in request order, whatever fails
    on the way, and it reads the size of exactly the handles that the
    storage fetcher handed out, in that order; the pod-log call, if any,
    comes last. *)
Theorem FetchArtifacts_call_order s src podName sizeLimit names
    gcsKey jobName buildID tr0 :
  FetchKeys s src = (inl (gcsKey, jobName, buildID), tr0) ->
  handleRequests (trace (Fetch s src podName sizeLimit names)) = names /\
  sizeProbes (trace (Fetch s src podName sizeLimit names)) =
    obtained s gcsKey sizeLimit names /\
  (logFailed s gcsKey sizeLimit names = true ->
   exists before,
     trace (Fetch s src podName sizeLimit names) =
       before ++ [CallPodLog jobName buildID sizeLimit] /\
     podLogCalls before = []).
Proof.
  intros Hk.
  rewrite (FetchArtifacts_trace s src podName sizeLimit names _ _ _ _ Hk).
  pose proof (FetchArtifacts_keys_lookups s src) as [Hh Hs].
  pose proof (FetchArtifacts_keys_trace s src) as [Hp _].
  rewrite Hk in Hh, Hs, Hp. unfold trace in Hh, Hs, Hp. simpl in Hh, Hs, Hp.
  destruct (FetchArtifacts_loop_calls s gcsKey sizeLimit names [] false)
    as [Hlh Hls].
  rewrite !handleRequests_app, !sizeProbes_app, Hh, Hs, Hlh, Hls.
  split; [|split].
  - destruct (logFailed s gcsKey sizeLimit names); simpl;
      rewrite app_nil_r; reflexivity.
  - destruct (logFailed s gcsKey sizeLimit names); simpl;
      rewrite app_nil_r; reflexivity.
  - intros ->.
    exists (tr0 ++ trace (FetchArtifacts_loop s gcsKey sizeLimit names [] false)).
    split; [rewrite app_assoc; reflexivity|].
    rewrite podLogCalls_app, Hp, FetchArtifacts_loop_podLogCalls. reflexivity.
Qed.

(** *** Listing, then fetching what was listed *)

Lemma FetchArtifacts_keys_listable s src keys tr0 :
  FetchKeys s src = (inl keys, tr0) ->
  exists names tr, List s src = (names, None, tr).
Proof.
  unfold FetchArtifacts_keys, ListArtifacts.
  destruct (splitSrc src) as [[keyType key] [err|]]; [discriminate|].
  assert (Hfrom : forall gcsKey,
            exists names tr, ListArtifacts_from s gcsKey = (names, None, tr)).
  { intros gcsKey. pose proof (ListArtifacts_from_ok s gcsKey) as H.
    destruct (ListArtifacts_from s gcsKey) as [[names e] tr].
    unfold value in H. simpl in H. subst e. eauto. }
  destruct (keyType =? gcsKeyType)%string.
  - intros _. apply Hfrom.
  - destruct (keyType =? prowKeyType)%string; [|discriminate].
    intros _. unfold bind.
    destruct (prowToGCS s key) as [[gcsKey e] t].
    destruct (Hfrom gcsKey) as (names & tr & ->). eauto.
Qed.

(** X15: fetching the names that the listing of the same reference
    returned always accounts for the build log: either its storage handle
    is in the result and the pod-log fetcher is not called, or its step
    fails and the pod-log fetcher is asked once, for the job name and
    build id of the reference. *)
Theorem listed_names_fetch_log s src podName sizeLimit
    gcsKey jobName buildID tr0 :
  FetchKeys s src = (inl (gcsKey, jobName, buildID), tr0) ->
  snd (value (List s src)) = None /\
  In buildLog (fst (value (List s src))) /\
  ((exists art,
      probe s gcsKey sizeLimit buildLog = Some art /\
      In art (fst (value (Fetch s src podName sizeLimit
                            (fst (value (List s src)))))) /\
      podLogCalls (trace (Fetch s src podName sizeLimit
                            (fst (value (List s src))))) = []) \/
   (probe s gcsKey sizeLimit buildLog = None /\
    podLogCalls (trace (Fetch s src podName sizeLimit
                          (fst (value (List s src))))) =
      [CallPodLog jobName buildID sizeLimit])).
Proof.
  intros Hk.
  destruct (FetchArtifacts_keys_listable s src _ _ Hk) as (names & tr & HL).
  pose proof (ListArtifacts_log_present s src names tr HL) as Hin.
  assert (Hn : fst (value (List s src)) = names) by (rewrite HL; reflexivity).
  assert (He : snd (value (List s src)) = None) by (rewrite HL; reflexivity).
  rewrite Hn, He.
  split; [reflexivity|]. split; [exact Hin|].
  destruct (FetchArtifacts_spec s src podName sizeLimit names _ _ _ _ Hk)
    as (Hv & Hc & _).
  rewrite Hv, Hc. simpl fst.
  destruct (probe s gcsKey sizeLimit buildLog) as [art|] eqn:Ep.
  - left. exists art. split; [reflexivity|]. split.
    + apply in_or_app. left. apply In_probed. exists buildLog. auto.
    + destruct (logFailed s gcsKey sizeLimit names) eqn:El; [|reflexivity].
      apply logFailed_iff in El. destruct El as [_ El]. congruence.
  - right. split; [reflexivity|].
    rewrite (logFailed_true s gcsKey sizeLimit names Hin Ep). reflexivity.
Qed.
End Properties.

(** ** Runs on the sample deployment *)

Example listing_with_log :
  value (ListArtifacts Sample.gcsKeyType Sample.prowKeyType Sample.spyglass
           "gcs/bucket/job/123") = (["a.txt"; "build-log.txt"], None).
Proof. reflexivity. Qed.

Example listing_without_log :
  value (ListArtifacts Sample.gcsKeyType Sample.prowKeyType Sample.spyglass
           "gcs/bucket/job/124") = (["a.txt"; "build-log.txt"], None).
Proof. reflexivity. Qed.

Example listing_failed :
  ListArtifacts Sample.gcsKeyType Sample.prowKeyType Sample.spyglass
    "gcs/nowhere" = (["build-log.txt"], None, [CallArtifacts "nowhere"]).
Proof. reflexivity. Qed.

Example fetch_all_present :
  FetchArtifacts Sample.gcsKeyType Sample.prowKeyType Sample.spyglass
    "gcs/bucket/job/124" "pod" 100 ["a.txt"; "build-log.txt"] =
  (["bucket/job/124/a.txt"; "bucket/job/124/build-log.txt"], None,
   [CallArtifact "bucket/job/124" "a.txt" 100;
    CallSize "bucket/job/124/a.txt";
    CallArtifact "bucket/job/124" "build-log.txt" 100;
    CallSize "bucket/job/124/build-log.txt"]).
Proof. reflexivity. Qed.

Example fetch_log_from_pod :
  FetchArtifacts Sample.gcsKeyType Sample.prowKeyType Sample.spyglass
    "prowjob/job/123" "pod" 100 ["a.txt"; "gone.txt"; "build-log.txt"] =
  (["bucket/job/123/a.txt"; "pod:job/123"], None,
   [CallGetProwJob "job" "123";
    CallArtifact "bucket/job/123" "a.txt" 100;
    CallSize "bucket/job/123/a.txt";
    CallArtifact "bucket/job/123" "gone.txt" 100;
    CallArtifact "bucket/job/123" "build-log.txt" 100;
    CallSize "bucket/job/123/build-log.txt";
    CallPodLog "job" "123" 100]).
Proof. reflexivity. Qed.

Example fetch_direct_locator :
  value (FetchArtifacts_keys Sample.gcsKeyType Sample.prowKeyType
           Sample.spyglass "gcs/bucket/job/123/") =
  inl ("bucket/job/123", "job", "123").
Proof. reflexivity. Qed.

Lemma malformed_reference_rejected_witness :
  ListArtifacts Sample.gcsKeyType Sample.prowKeyType Sample.spyglass "nosep" =
    ([], Some (ErrorParsingSrc (InvalidSrc "nosep")), []) /\
  FetchArtifacts Sample.gcsKeyType Sample.prowKeyType Sample.spyglass
    "nosep" "pod" 100 ["a.txt"; "build-log.txt"] =
    ([], Some (ErrorParsingSrc (InvalidSrc "nosep")), []).
Proof.
  apply (malformed_reference_rejected
           Sample.gcsKeyType Sample.prowKeyType Sample.spyglass "nosep").
  reflexivity.
Defined.

Lemma prowToGCS_resolution_witness :
  value (prowToGCS Sample.spyglass "job/123") = ("bucket/job/123", None) /\
  value (prowToGCS Sample.spyglass "odd/1") =
    ("", Some (UnexpectedJobURL "http://elsewhere/odd/1"
                                "https://prow/view/gcs/")).
Proof.
  split.
  - apply (proj1 (prowToGCS_resolution Sample.spyglass "job/123" "job" "123"
                    {| Status := {| URL := "https://prow/view/gcs/bucket/job/123" |} |}
                    eq_refl eq_refl)).
    reflexivity.
  - apply (proj2 (prowToGCS_resolution Sample.spyglass "odd/1" "odd" "1"
                    {| Status := {| URL := "http://elsewhere/odd/1" |} |}
                    eq_refl eq_refl)).
    intros suffix H.
    simpl in H. discriminate H.
Defined.

(** C1, as stated, fails.  When the listing succeeds and names the log
    twice the result names it twice, and when the listing fails after it
    has already returned the log the result names it twice as well. *)
Lemma ListArtifacts_log_twice :
  (Sample.listing "bucket/job/125" =
     (["build-log.txt"; "build-log.txt"], None) /\
   value (ListArtifacts Sample.gcsKeyType Sample.prowKeyType Sample.spyglass
            "gcs/bucket/job/125") =
     (["build-log.txt"; "build-log.txt"], None)) /\
  (Sample.listing "bucket/job/126" =
     (["build-log.txt"], Some (External "timed out")) /\
   value (ListArtifacts Sample.gcsKeyType Sample.prowKeyType Sample.spyglass
            "gcs/bucket/job/126") =
     (["build-log.txt"; "build-log.txt"], None)) /\
  count_occ string_dec ["build-log.txt"; "build-log.txt"] buildLog = 2.
Proof. repeat split; reflexivity. Qed.

Lemma ListArtifacts_log_once_witness :
  count_occ string_dec
    (fst (value (ListArtifacts Sample.gcsKeyType Sample.prowKeyType
                   Sample.spyglass "prowjob/job/123")))
    buildLog = 1.
Proof.
  apply (ListArtifacts_log_once
           Sample.gcsKeyType Sample.prowKeyType Sample.spyglass
           "prowjob/job/123" ["a.txt"; "build-log.txt"]
           [CallGetProwJob "job" "123"; CallArtifacts "bucket/job/123"]).
  - reflexivity.
  - intros gcsKey [H|[H|[]]]; [discriminate|].
    injection H as <-. simpl. split; [lia|].
    intros H. contradiction H. reflexivity.
Defined.

(** C2, as stated, fails: ["foo/bar"] has a separator and is not
    job-addressed, and both entry points return an error for it. *)
Lemma unrecognised_key_type_fails :
  0 < countSep "foo/bar" /\
  splitSrc "foo/bar" = ("foo", "bar", None) /\
  ListArtifacts Sample.gcsKeyType Sample.prowKeyType Sample.spyglass "foo/bar"
    = ([], Some (UnrecognizedKeyType "foo/bar"), []) /\
  FetchArtifacts Sample.gcsKeyType Sample.prowKeyType Sample.spyglass
    "foo/bar" "pod" 100 ["a.txt"]
    = ([], Some (InvalidSrcKind "foo/bar"), []).
Proof. repeat split; simpl; lia. Qed.

Lemma entry_points_fail_iff_witness :
  (snd (value (ListArtifacts Sample.gcsKeyType Sample.prowKeyType
                 Sample.spyglass "prowjob/a/b/c")) <> None <->
   countSep "prowjob/a/b/c" = 0 \/
   exists keyType key,
     splitSrc "prowjob/a/b/c" = (keyType, key, None) /\
     keyType <> Sample.gcsKeyType /\ keyType <> Sample.prowKeyType) /\
  (snd (value (FetchArtifacts Sample.gcsKeyType Sample.prowKeyType
                 Sample.spyglass "prowjob/a/b/c" "pod" 100 ["a.txt"]))
     <> None <->
   countSep "prowjob/a/b/c" = 0 \/
   exists keyType key,
     splitSrc "prowjob/a/b/c" = (keyType, key, None) /\
     ((keyType <> Sample.gcsKeyType /\ keyType <> Sample.prowKeyType) \/
      (keyType = Sample.prowKeyType /\ List.length (Split key) <> 2))).
Proof.
  apply (entry_points_fail_iff Sample.gcsKeyType Sample.prowKeyType).
  discriminate.
Defined.

(** C5, as stated, fails: [ListArtifacts] does not trim the key, and
    [FetchArtifacts] trims one separator only. *)
Lemma direct_path_not_trimmed :
  (splitSrc "gcs/bucket/job/123/" = ("gcs", "bucket/job/123/", None) /\
   storagePaths
     (trace (ListArtifacts Sample.gcsKeyType Sample.prowKeyType
               Sample.spyglass "gcs/bucket/job/123/"))
   = ["bucket/job/123/"]) /\
  (splitSrc "gcs/bucket//" = ("gcs", "bucket//", None) /\
   storagePaths
     (trace (FetchArtifacts Sample.gcsKeyType Sample.prowKeyType
               Sample.spyglass "gcs/bucket//" "pod" 100 ["a.txt"]))
   = ["bucket/"]).
Proof. repeat split; reflexivity. Qed.

Lemma direct_reference_path_witness :
  storagePaths
    (trace (ListArtifacts Sample.gcsKeyType Sample.prowKeyType
              Sample.spyglass "gcs/bucket/job/123/"))
  = ["bucket/job/123/"] /\
  storagePaths
    (trace (FetchArtifacts Sample.gcsKeyType Sample.prowKeyType
              Sample.spyglass "gcs/bucket/job/123/" "pod" 100
              ["a.txt"; "build-log.txt"]))
  = repeat (TrimSuffix "bucket/job/123/") 2 /\
  ((endsWithSep "bucket/job/123/" = true /\
    "bucket/job/123/" =
      (TrimSuffix "bucket/job/123/" ++ String sep EmptyString)%string) \/
   (endsWithSep "bucket/job/123/" = false /\
    "bucket/job/123/" = TrimSuffix "bucket/job/123/")).
Proof.
  apply (direct_reference_path Sample.gcsKeyType Sample.prowKeyType
           Sample.spyglass "gcs/bucket/job/123/" "bucket/job/123/"
           "pod" 100 ["a.txt"; "build-log.txt"]).
  reflexivity.
Defined.

Lemma log_fallback_witness :
  (exists others,
     Forall2 (fun name art =>
                probe Sample.spyglass "bucket/job/123" 100 name = Some art)
             ["a.txt"] others /\
     podLogCalls
       (trace (FetchArtifacts Sample.gcsKeyType Sample.prowKeyType
                 Sample.spyglass "prowjob/job/123" "pod" 100
                 ["a.txt"; "build-log.txt"]))
     = [CallPodLog "job" "123" 100] /\
     value (FetchArtifacts Sample.gcsKeyType Sample.prowKeyType
              Sample.spyglass "prowjob/job/123" "pod" 100
              ["a.txt"; "build-log.txt"])
     = (others ++ ["pod:job/123"], None)) /\
  (exists others,
     Forall2 (fun name art =>
                probe Sample.spyglass "bucket/job/123" 100 name = Some art)
             ["a.txt"] others /\
     podLogCalls
       (trace (FetchArtifacts Sample.gcsKeyType Sample.prowKeyType
                 Sample.spyglass "gcs/bucket/job/123/" "pod" 100
                 ["a.txt"; "build-log.txt"]))
     = [CallPodLog "job" "123" 100] /\
     value (FetchArtifacts Sample.gcsKeyType Sample.prowKeyType
              Sample.spyglass "gcs/bucket/job/123/" "pod" 100
              ["a.txt"; "build-log.txt"])
     = (others ++ ["pod:job/123"], None)).
Proof.
  assert (D : Sample.gcsKeyType <> Sample.prowKeyType) by discriminate.
  assert (Hothers : forall name,
             In name ["a.txt"; "build-log.txt"] -> name <> buildLog ->
             probe Sample.spyglass "bucket/job/123" 100 name <> None).
  { intros name [<-|[<-|[]]] Hne.
    - vm_compute. discriminate.
    - contradiction Hne. reflexivity. }
  assert (Hin : In buildLog ["a.txt"; "build-log.txt"])
    by (simpl; right; left; reflexivity).
  split.
  - apply (log_fallback Sample.gcsKeyType Sample.prowKeyType D Sample.spyglass
             "prowjob/job/123" "prowjob" "job/123" "pod" 100
             ["a.txt"; "build-log.txt"] "bucket/job/123" "job" "123").
    + reflexivity.
    + left. repeat split; reflexivity.
    + exact Hin.
    + reflexivity.
    + exact Hothers.
  - apply (log_fallback Sample.gcsKeyType Sample.prowKeyType D Sample.spyglass
             "gcs/bucket/job/123/" "gcs" "bucket/job/123/" "pod" 100
             ["a.txt"; "build-log.txt"] "bucket/job/123" "job" "123").
    + reflexivity.
    + right. split; [reflexivity|]. split; [reflexivity|].
      left. exists ["bucket"%string]. reflexivity.
    + exact Hin.
    + reflexivity.
    + exact Hothers.
Defined.

Lemma other_failure_dropped_witness :
  value (FetchArtifacts Sample.gcsKeyType Sample.prowKeyType Sample.spyglass
           "prowjob/job/123" "pod" 100 ["a.txt"; "gone.txt"; "build-log.txt"])
  = value (FetchArtifacts Sample.gcsKeyType Sample.prowKeyType Sample.spyglass
             "prowjob/job/123" "pod" 100
             (remove string_dec "gone.txt"
                     ["a.txt"; "gone.txt"; "build-log.txt"])) /\
  podLogCalls
    (trace (FetchArtifacts Sample.gcsKeyType Sample.prowKeyType
              Sample.spyglass "prowjob/job/123" "pod" 100
              ["a.txt"; "gone.txt"; "build-log.txt"]))
  = podLogCalls
      (trace (FetchArtifacts Sample.gcsKeyType Sample.prowKeyType
                Sample.spyglass "prowjob/job/123" "pod" 100
                (remove string_dec "gone.txt"
                        ["a.txt"; "gone.txt"; "build-log.txt"]))).
Proof.
  apply (other_failure_dropped Sample.gcsKeyType Sample.prowKeyType
           Sample.spyglass "prowjob/job/123" "pod" 100
           ["a.txt"; "gone.txt"; "build-log.txt"] "gone.txt"
           "bucket/job/123" "job" "123" [CallGetProwJob "job" "123"]).
  - reflexivity.
  - simpl. right. left. reflexivity.
  - discriminate.
  - reflexivity.
Defined.

Lemma unresolved_job_degrades_witness :
  snd (value (ListArtifacts Sample.gcsKeyType Sample.prowKeyType
                Sample.spyglass "prowjob/odd/1")) = None /\
  storagePaths
    (trace (ListArtifacts Sample.gcsKeyType Sample.prowKeyType
              Sample.spyglass "prowjob/odd/1")) = [EmptyString] /\
  value (FetchArtifacts Sample.gcsKeyType Sample.prowKeyType Sample.spyglass
           "prowjob/odd/1" "pod" 100 ["a.txt"; "build-log.txt"])
  = (probed Sample.spyglass EmptyString 100 ["a.txt"; "build-log.txt"] ++
       fallback Sample.spyglass EmptyString "odd" "1" 100
                ["a.txt"; "build-log.txt"], None) /\
  storagePaths
    (trace (FetchArtifacts Sample.gcsKeyType Sample.prowKeyType
              Sample.spyglass "prowjob/odd/1" "pod" 100
              ["a.txt"; "build-log.txt"]))
  = repeat EmptyString 2.
Proof.
  apply (unresolved_job_degrades Sample.gcsKeyType Sample.prowKeyType)
    with (key := "odd/1"%string).
  - discriminate.
  - reflexivity.
  - reflexivity.
  - right. exists {| Status := {| URL := "http://elsewhere/odd/1" |} |}.
    split; [reflexivity|].
    intros suffix H. simpl in H. discriminate H.
Defined.

Lemma short_direct_key_witness :
  snd (value (FetchArtifacts Sample.gcsKeyType Sample.prowKeyType
                Sample.spyglass "gcs/" "pod" 100 ["a.txt"; "build-log.txt"]))
  = None /\
  podLogCalls
    (trace (FetchArtifacts Sample.gcsKeyType Sample.prowKeyType
              Sample.spyglass "gcs/" "pod" 100 ["a.txt"; "build-log.txt"]))
  = [CallPodLog EmptyString EmptyString 100].
Proof.
  destruct (short_direct_key Sample.gcsKeyType Sample.prowKeyType
              Sample.spyglass "gcs/" EmptyString "pod" 100
              ["a.txt"; "build-log.txt"]) as [Hok Hcall].
  - reflexivity.
  - simpl. lia.
  - split; [exact Hok|].
    apply Hcall; [simpl; right; left; reflexivity | reflexivity].
Defined.

(** *** Runs of the further properties *)

Lemma splitSrc_join_witness :
  splitSrc ("gcs" ++ String sep "bucket/job/123") =
    ("gcs", "bucket/job/123", None).
Proof. apply (splitSrc_join "gcs" "bucket/job/123"). reflexivity. Defined.

Lemma prowToGCS_failure_witness :
  exists jobName buildID,
    Split "odd/1" = [jobName; buildID] /\
    trace (prowToGCS Sample.spyglass "odd/1") =
      [CallGetProwJob jobName buildID].
Proof.
  destruct (prowToGCS_failure Sample.spyglass "odd/1" ""
              (UnexpectedJobURL "http://elsewhere/odd/1"
                                "https://prow/view/gcs/") eq_refl)
    as [_ [(Hlen & _)|(jobName & buildID & Hsplit & Htrace & _)]].
  - exfalso. apply Hlen. reflexivity.
  - exists jobName, buildID. split; assumption.
Defined.

Lemma ListArtifacts_keeps_listing_witness :
  exists gcsKey,
    storagePaths [@CallArtifacts string "bucket/job/124"] = [gcsKey] /\
    ((["a.txt"; "build-log.txt"] = fst (gcsArtifacts Sample.spyglass gcsKey) /\
      snd (gcsArtifacts Sample.spyglass gcsKey) = None /\
      In buildLog (fst (gcsArtifacts Sample.spyglass gcsKey))) \/
     (["a.txt"; "build-log.txt"] =
        fst (gcsArtifacts Sample.spyglass gcsKey) ++ [buildLog] /\
      (snd (gcsArtifacts Sample.spyglass gcsKey) <> None \/
       ~ In buildLog (fst (gcsArtifacts Sample.spyglass gcsKey))))).
Proof.
  apply (ListArtifacts_keeps_listing Sample.gcsKeyType Sample.prowKeyType
           Sample.spyglass "gcs/bucket/job/124").
  reflexivity.
Defined.

Lemma errors_before_any_call_witness :
  (fst (value (ListArtifacts Sample.gcsKeyType Sample.prowKeyType
                 Sample.spyglass "foo/bar")) = [] /\
   trace (ListArtifacts Sample.gcsKeyType Sample.prowKeyType
            Sample.spyglass "foo/bar") = []) /\
  (fst (value (FetchArtifacts Sample.gcsKeyType Sample.prowKeyType
                 Sample.spyglass "prowjob/a/b/c" "pod" 100 ["a.txt"])) = [] /\
   trace (FetchArtifacts Sample.gcsKeyType Sample.prowKeyType
            Sample.spyglass "prowjob/a/b/c" "pod" 100 ["a.txt"]) = []).
Proof.
  split.
  - apply (proj1 (errors_before_any_call Sample.gcsKeyType Sample.prowKeyType
                    Sample.spyglass "foo/bar" "pod" 100 ["a.txt"])).
    vm_compute. discriminate.
  - apply (proj2 (errors_before_any_call Sample.gcsKeyType Sample.prowKeyType
                    Sample.spyglass "prowjob/a/b/c" "pod" 100 ["a.txt"])).
    vm_compute. discriminate.
Defined.

Lemma malformed_job_key_witness :
  ListArtifacts Sample.gcsKeyType Sample.prowKeyType Sample.spyglass
    "prowjob/a/b/c" = ListArtifacts_from Sample.spyglass EmptyString /\
  trace (ListArtifacts Sample.gcsKeyType Sample.prowKeyType Sample.spyglass
           "prowjob/a/b/c") = [CallArtifacts EmptyString] /\
  snd (value (ListArtifacts Sample.gcsKeyType Sample.prowKeyType
                Sample.spyglass "prowjob/a/b/c")) = None /\
  FetchArtifacts Sample.gcsKeyType Sample.prowKeyType Sample.spyglass
    "prowjob/a/b/c" "pod" 100 ["a.txt"] =
    ([], Some (KeyIncorrectlyFormatted "a/b/c"), []).
Proof.
  assert (D : Sample.gcsKeyType <> Sample.prowKeyType) by discriminate.
  apply (malformed_job_key Sample.gcsKeyType Sample.prowKeyType D
           Sample.spyglass "prowjob/a/b/c" "a/b/c" "pod" 100 ["a.txt"]).
  - reflexivity.
  - simpl. lia.
Defined.

Lemma job_listing_is_direct_listing_witness :
  value (ListArtifacts Sample.gcsKeyType Sample.prowKeyType Sample.spyglass
           "prowjob/job/123") =
  value (ListArtifacts Sample.gcsKeyType Sample.prowKeyType Sample.spyglass
           (Sample.gcsKeyType ++ String sep "bucket/job/123")).
Proof.
  assert (D : Sample.gcsKeyType <> Sample.prowKeyType) by discriminate.
  apply (job_listing_is_direct_listing Sample.gcsKeyType Sample.prowKeyType D
           Sample.spyglass "prowjob/job/123" "job/123" "bucket/job/123");
    reflexivity.
Defined.

Lemma FetchArtifacts_members_witness :
  In "pod:job/123"%string
     (fst (value (FetchArtifacts Sample.gcsKeyType Sample.prowKeyType
                    Sample.spyglass "prowjob/job/123" "pod" 100
                    ["a.txt"; "build-log.txt"]))) <->
  (exists name,
      In name ["a.txt"; "build-log.txt"] /\
      probe Sample.spyglass "bucket/job/123" 100 name = Some "pod:job/123"%string)
  \/
  (In buildLog ["a.txt"; "build-log.txt"] /\
   probe Sample.spyglass "bucket/job/123" 100 buildLog = None /\
   podLogArtifact Sample.spyglass "job" "123" 100 = inl "pod:job/123"%string).
Proof.
  apply (FetchArtifacts_members Sample.gcsKeyType Sample.prowKeyType
           Sample.spyglass "prowjob/job/123" "pod" 100
           ["a.txt"; "build-log.txt"] "bucket/job/123" "job" "123"
           [CallGetProwJob "job" "123"]).
  reflexivity.
Defined.

Lemma all_present_witness :
  Forall2 (fun name art =>
             probe Sample.spyglass "bucket/job/124" 100 name = Some art)
          ["a.txt"; "build-log.txt"]
          (fst (value (FetchArtifacts Sample.gcsKeyType Sample.prowKeyType
                         Sample.spyglass "gcs/bucket/job/124" "pod" 100
                         ["a.txt"; "build-log.txt"]))) /\
  snd (value (FetchArtifacts Sample.gcsKeyType Sample.prowKeyType
                Sample.spyglass "gcs/bucket/job/124" "pod" 100
                ["a.txt"; "build-log.txt"])) = None /\
  podLogCalls (trace (FetchArtifacts Sample.gcsKeyType Sample.prowKeyType
                        Sample.spyglass "gcs/bucket/job/124" "pod" 100
                        ["a.txt"; "build-log.txt"])) = [].
Proof.
  apply (all_present Sample.gcsKeyType Sample.prowKeyType Sample.spyglass
           "gcs/bucket/job/124" "pod" 100 ["a.txt"; "build-log.txt"]
           "bucket/job/124" "job" "124" []).
  - reflexivity.
  - intros name [<-|[<-|[]]]; vm_compute; discriminate.
Defined.

Lemma direct_run_fetch_witness :
  value (FetchArtifacts Sample.gcsKeyType Sample.prowKeyType Sample.spyglass
           "gcs/bucket/job/123/" "pod" 100 ["a.txt"; "build-log.txt"]) =
    (probed Sample.spyglass "bucket/job/123" 100 ["a.txt"; "build-log.txt"] ++
       fallback Sample.spyglass "bucket/job/123" "job" "123" 100
                ["a.txt"; "build-log.txt"], None) /\
  storagePaths
    (trace (FetchArtifacts Sample.gcsKeyType Sample.prowKeyType
              Sample.spyglass "gcs/bucket/job/123/" "pod" 100
              ["a.txt"; "build-log.txt"])) =
    repeat "bucket/job/123"%string 2 /\
  podLogCalls
    (trace (FetchArtifacts Sample.gcsKeyType Sample.prowKeyType
              Sample.spyglass "gcs/bucket/job/123/" "pod" 100
              ["a.txt"; "build-log.txt"])) =
    [CallPodLog "job" "123" 100].
Proof.
  assert (Hne : "123"%string <> EmptyString) by discriminate.
  assert (Hdir : "bucket/"%string = EmptyString \/
                 (exists base,
                     "bucket/"%string = (base ++ String sep EmptyString)%string))
    by (right; exists "bucket"%string; reflexivity).
  assert (Htrail : "/"%string = EmptyString \/
                   "/"%string = String sep EmptyString)
    by (right; reflexivity).
  exact (direct_run_fetch Sample.gcsKeyType Sample.prowKeyType Sample.spyglass
           "gcs/bucket/job/123/" "bucket/" "job" "123" "/"
           "pod" 100 ["a.txt"; "build-log.txt"]
           eq_refl eq_refl Hne Hdir Htrail eq_refl).
Defined.

Lemma job_fetch_is_direct_fetch_witness :
  value (FetchArtifacts Sample.gcsKeyType Sample.prowKeyType Sample.spyglass
           "prowjob/job/123" "pod" 100 ["a.txt"; "build-log.txt"]) =
  value (FetchArtifacts Sample.gcsKeyType Sample.prowKeyType Sample.spyglass
           (Sample.gcsKeyType ++ String sep ("bucket/" ++ "job" ++ String sep "123"))
           "pod" 100 ["a.txt"; "build-log.txt"]).
Proof.
  assert (D : Sample.gcsKeyType <> Sample.prowKeyType) by discriminate.
  apply (job_fetch_is_direct_fetch Sample.gcsKeyType Sample.prowKeyType D
           Sample.spyglass "prowjob/job/123" "job/123" "bucket/" "job" "123"
           "pod" 100 ["a.txt"; "build-log.txt"]).
  - reflexivity.
  - reflexivity.
  - reflexivity.
  - discriminate.
  - right. exists "bucket"%string. reflexivity.
  - reflexivity.
Defined.

Lemma FetchArtifacts_call_order_witness :
  handleRequests
    (trace (FetchArtifacts Sample.gcsKeyType Sample.prowKeyType
              Sample.spyglass "prowjob/job/123" "pod" 100
              ["a.txt"; "gone.txt"; "build-log.txt"])) =
    ["a.txt"; "gone.txt"; "build-log.txt"] /\
  sizeProbes
    (trace (FetchArtifacts Sample.gcsKeyType Sample.prowKeyType
              Sample.spyglass "prowjob/job/123" "pod" 100
              ["a.txt"; "gone.txt"; "build-log.txt"])) =
    ["bucket/job/123/a.txt"; "bucket/job/123/build-log.txt"] /\
  exists before,
    trace (FetchArtifacts Sample.gcsKeyType Sample.prowKeyType
             Sample.spyglass "prowjob/job/123" "pod" 100
             ["a.txt"; "gone.txt"; "build-log.txt"]) =
      before ++ [CallPodLog "job" "123" 100] /\
    podLogCalls before = [].
Proof.
  destruct (FetchArtifacts_call_order Sample.gcsKeyType Sample.prowKeyType
              Sample.spyglass "prowjob/job/123" "pod" 100
              ["a.txt"; "gone.txt"; "build-log.txt"]
              "bucket/job/123" "job" "123" [CallGetProwJob "job" "123"]
              eq_refl) as (Hh & Hs & Hp).
  split; [exact Hh|]. split; [exact Hs|]. apply Hp. reflexivity.
Defined.

Lemma listed_names_fetch_log_witness :
  In buildLog
     (fst (value (ListArtifacts Sample.gcsKeyType Sample.prowKeyType
                    Sample.spyglass "prowjob/job/123"))) /\
  podLogCalls
    (trace (FetchArtifacts Sample.gcsKeyType Sample.prowKeyType
              Sample.spyglass "prowjob/job/123" "pod" 100
              (fst (value (ListArtifacts Sample.gcsKeyType Sample.prowKeyType
                             Sample.spyglass "prowjob/job/123"))))) =
    [CallPodLog "job" "123" 100].
Proof.
  destruct (listed_names_fetch_log Sample.gcsKeyType Sample.prowKeyType
              Sample.spyglass "prowjob/job/123" "pod" 100
              "bucket/job/123" "job" "123" [CallGetProwJob "job" "123"]
              eq_refl) as (_ & Hin & [(art & Hp & _)|(_ & Hc)]).
  - vm_compute in Hp. discriminate.
  - split; assumption.
Defined.
